(** * klepto: the MySQL dumper ([pkg/dumper/mysql/mysql.go])

    A shallow embedding of the table writer of the MySQL dumper: the value
    encoding of a row, identifier quoting, the two insertion strategies
    ([insertIntoTable], [insertIntoTableReplace]), the per-batch transaction
    ([trunkInsert]), the batching loop of [DumpTable], the one-time
    [local_infile] toggle and [Close].

    Go strings are byte sequences; they are modelled by [string], whose
    characters are 8-bit.  [int64] values are modelled by [Z] with the
    wrap-around of the addition written out. *)

From Stdlib Require Import ZArith Lia List Strings.String Strings.Ascii Strings.Byte.
From stdpp Require Import base option list gmap strings.

Local Open Scope Z_scope.

(** ** Data model *)

Module Go.

(** [fmt.Errorf(prefix ++ "%w", err)] wraps an error behind a message
    prefix; [DbErr] stands for an error produced by the driver, the server or
    the reader. *)
Inductive error : Type :=
| DbErr (msg : string)
| Errorf (prefix : string) (wrapped : error).

(** [err.Error()]: the message of a wrapping error is its prefix followed by
    the message of the wrapped one. *)
Fixpoint Error (e : error) : string :=
  match e with
  | DbErr msg => msg
  | Errorf prefix wrapped => prefix +:+ Error wrapped
  end.

(** [errors.Unwrap]. *)
Definition Unwrap (e : error) : option error :=
  match e with
  | DbErr _ => None
  | Errorf _ wrapped => Some wrapped
  end.

(** The dynamic value held by an [interface{}]: the three dynamic types the
    type switches of the source tell apart, and every other one
    ([VOther], with the name of its dynamic type). *)
Inductive Value : Type :=
| VNil
| VString (s : string)
| VBytes (b : list byte)
| VOther (dyntype : string).

(** [database.Row] is [map[string]interface{}]. *)
Abbreviation Row := (gmap string Value).

(** [row[col]]: indexing a Go map with an absent key yields the zero value
    of the element type, the nil interface. *)
Definition index (row : Row) (col : string) : Value :=
  match row !! col with
  | Some v => v
  | None => VNil
  end.

(** What a goroutine panics with. *)
Inductive panic : Type :=
| LogPanic (e : error)            (* log.Panic(err) *)
| TypeAssertion (v : Value).      (* x.(string) on a value that is no string *)

(** [int64] *)
Definition int64_min : Z := - 2 ^ 63.
Definition int64_max : Z := 2 ^ 63 - 1.
Definition is_int64 (z : Z) : Prop := int64_min <= z <= int64_max.
Definition wrap64 (z : Z) : Z := (z + 2 ^ 63) mod 2 ^ 64 - 2 ^ 63.

(** [atomic.AddInt64(&x, delta)] *)
Definition AddInt64 (x delta : Z) : Z := wrap64 (x + delta).

(** [strings.Join] *)
Definition Join (elems : list string) (sep : string) : string :=
  String.concat sep elems.

(** [strings.Replace(s, old, new, -1)] for a one-byte [old]: every
    occurrence is replaced, left to right. *)
Fixpoint ReplaceByte (s : string) (old : ascii) (new : string) : string :=
  match s with
  | EmptyString => EmptyString
  | String c rest =>
      if Ascii.eqb c old then new +:+ ReplaceByte rest old new
      else String c (ReplaceByte rest old new)
  end.

End Go.

Import Go.

(** ** Value encoding and identifier quoting *)

Definition null : string := "NULL".

Definition backtick : ascii := "`"%char.

(** [quoteIdentifier], line 338. *)
Definition quoteIdentifier (name : string) : string :=
  "`" +:+ ReplaceByte name backtick "``" +:+ "`".

(** The type switch of the producer goroutine of [insertIntoTable]
    (lines 231-241).  In the [default] branch the assertion
    [row[col].(string)] is made on a value whose dynamic type is not
    [string], so it panics. *)
Definition encodeValue_stream (v : Value) : panic + string :=
  match v with
  | VNil => inr null
  | VString s => inr s
  | VBytes b => inr (string_of_list_byte b)
  | VOther _ => inl (TypeAssertion v)
  end.

(** The type switch of [insertIntoTableReplace] (lines 299-309), a second
    copy of the one above in the source. *)
Definition encodeValue_replace (v : Value) : panic + string :=
  match v with
  | VNil => inr null
  | VString s => inr s
  | VBytes b => inr (string_of_list_byte b)
  | VOther _ => inl (TypeAssertion v)
  end.

(** The loop [for i, col := range columns { rowValues[i] = ... }] over a
    slice made by [make([]string, len(columns))]; it stops at the first
    panic. *)
Fixpoint fillRowValues (enc : Value -> panic + string) (row : Row)
    (columns : list string) (i : nat) (rowValues : list string)
  : panic + list string :=
  match columns with
  | [] => inr rowValues
  | col :: columns' =>
      match enc (index row col) with
      | inl p => inl p
      | inr s => fillRowValues enc row columns' (S i) (<[i := s]> rowValues)
      end
  end.

Definition makeRowValues (enc : Value -> panic + string) (row : Row)
    (columns : list string) : panic + list string :=
  fillRowValues enc row columns 0%nat (replicate (length columns) EmptyString).

(** ** The session: dumper, connection, server and row channel *)

(** What the session does to the outside, in order.  Every call on the
    connection or on a transaction is recorded with its result. *)
Inductive Event : Type :=
| EvQueryRow (query : string) (res : error + bool)  (* conn.QueryRow(q).Scan(&b) *)
| EvExec (query : string) (res : option error)      (* conn.Exec(q) *)
| EvBegin (res : option error)                      (* conn.Begin() *)
| EvTxExec (query : string) (infile : list (list string)) (res : option error)
      (* txn.Exec(q); [infile]: the records the statement read through the
         registered reader handler *)
| EvCommit (res : option error)                     (* txn.Commit() *)
| EvRollback (res : option error)                   (* txn.Rollback() *)
| EvClose (res : option error)                      (* conn.Close() *)
| EvRegisterReader (name : string)                  (* mysql.RegisterReaderHandler *)
| EvDeregisterReader (name : string)                (* mysql.DeregisterReaderHandler *)
| EvLogInserted (table : string) (inserted : Z).    (* Debug("inserted rows") *)

(** The fields of [myDumper] ([reader], [setGlobalInline],
    [disableGlobalInline], [batch]); its [conn], seen as the trace of the
    calls made on it, the server variable [@@GLOBAL.local_infile] behind it
    and the failures the environment decides ([fault k] is the error of the
    call made when the trace has [k] events, if that call fails); and the
    row channel of the running [DumpTable] call: the rows still to be
    received, after which the channel is closed. *)
Record Session : Type := mkSession {
  trace : list Event;
  fault : nat -> option error;
  local_infile : bool;
  GetColumns : string -> error + list string;
  setGlobalInline : bool;
  disableGlobalInline : bool;
  batch : Z;
  rowChan : list Row
}.

Definition with_trace (t : list Event) (s : Session) : Session :=
  mkSession t (fault s) (local_infile s) (GetColumns s) (setGlobalInline s)
            (disableGlobalInline s) (batch s) (rowChan s).
Definition with_local_infile (b : bool) (s : Session) : Session :=
  mkSession (trace s) (fault s) b (GetColumns s) (setGlobalInline s)
            (disableGlobalInline s) (batch s) (rowChan s).
Definition with_setGlobalInline (b : bool) (s : Session) : Session :=
  mkSession (trace s) (fault s) (local_infile s) (GetColumns s) b
            (disableGlobalInline s) (batch s) (rowChan s).
Definition with_disableGlobalInline (b : bool) (s : Session) : Session :=
  mkSession (trace s) (fault s) (local_infile s) (GetColumns s)
            (setGlobalInline s) b (batch s) (rowChan s).
Definition with_rowChan (c : list Row) (s : Session) : Session :=
  mkSession (trace s) (fault s) (local_infile s) (GetColumns s)
            (setGlobalInline s) (disableGlobalInline s) (batch s) c.

(** How a call ends: it returns, it panics, or (for the loop of [DumpTable],
    which is run with fuel) it is still running when the fuel is spent. *)
Inductive Outcome (A : Type) : Type :=
| Ret (a : A)
| Panicked (p : panic)
| Running.
Arguments Ret {A} a.
Arguments Panicked {A} p.
Arguments Running {A}.

Definition M (A : Type) : Type := Session -> Outcome A * Session.

#[export] Instance M_ret : MRet M := fun A a s => (Ret a, s).
#[export] Instance M_bind : MBind M := fun A B f m s =>
  match m s with
  | (Ret a, s') => f a s'
  | (Panicked p, s') => (Panicked p, s')
  | (Running, s') => (Running, s')
  end.

Definition get {A} (f : Session -> A) : M A := fun s => (Ret (f s), s).
Definition modify (f : Session -> Session) : M unit := fun s => (Ret tt, f s).
Definition do_panic {A} (p : panic) : M A := fun s => (Panicked p, s).
Definition emit (ev : Event) : M unit :=
  modify (fun s => with_trace (trace s ++ [ev]) s).

(** The failure, if any, that the environment has decided for the next call. *)
Definition next_fault : M (option error) :=
  get (fun s => fault s (length (trace s))).

Definition sql_read_local_infile : string := "SELECT @@GLOBAL.local_infile".
Definition sql_enable_local_infile : string := "SET GLOBAL local_infile=1".
Definition sql_disable_local_infile : string := "SET GLOBAL local_infile=0".
Definition sql_no_fk_checks : string := "SET foreign_key_checks = 0;".

(** [conn.QueryRow(q).Scan(&allowLocalInline)] for the one query of the
    source, which reads the server variable. *)
Definition conn_QueryRow (query : string) : M (error + bool) :=
  f ← next_fault;
  v ← get local_infile;
  let res := match f with Some e => inl e | None => inr v end in
  _ ← emit (EvQueryRow query res);
  mret res.

(** [conn.Exec(q)]; a successful [SET GLOBAL local_infile=...] changes the
    server variable. *)
Definition conn_Exec (query : string) : M (option error) :=
  f ← next_fault;
  _ ← emit (EvExec query f);
  _ ← match f with
      | Some _ => mret tt
      | None =>
          if String.eqb query sql_enable_local_infile
          then modify (with_local_infile true)
          else if String.eqb query sql_disable_local_infile
          then modify (with_local_infile false)
          else mret tt
      end;
  mret f.

Definition conn_Begin : M (option error) :=
  f ← next_fault; _ ← emit (EvBegin f); mret f.
Definition conn_Close : M (option error) :=
  f ← next_fault; _ ← emit (EvClose f); mret f.
Definition txn_Exec (query : string) (infile : list (list string))
  : M (option error) :=
  f ← next_fault; _ ← emit (EvTxExec query infile f); mret f.
Definition txn_Commit : M (option error) :=
  f ← next_fault; _ ← emit (EvCommit f); mret f.
Definition txn_Rollback : M (option error) :=
  f ← next_fault; _ ← emit (EvRollback f); mret f.

(** ** The streaming strategy: [insertIntoTable] *)

Definition dquote : string := String (ascii_of_byte x22) EmptyString.

(** The statement built by [fmt.Sprintf] at line 204. *)
Definition loadDataQuery (tableName : string) (columns : list string) : string :=
  "LOAD DATA CONCURRENT LOCAL INFILE 'Reader::" +:+ tableName +:+
  "' INTO TABLE " +:+ quoteIdentifier tableName +:+
  " FIELDS TERMINATED BY ',' ENCLOSED BY '" +:+ dquote +:+
  "' ESCAPED BY '" +:+ dquote +:+ "' (" +:+
  Join (map quoteIdentifier columns) "," +:+ ")".

(** The loop of the producer goroutine (lines 222-252): receive a row, stop
    when the channel is closed, encode the row and write the record to the
    pipe, count it, stop when the count has reached [batch].  The result is
    the final [inserted] and the records written, or the panic of the
    encoding, together with what is left in the channel. *)
Fixpoint producer (columns : list string) (batch : Z) (inserted : Z)
    (written : list (list string)) (ch : list Row)
  : (panic + Z * list (list string)) * list Row :=
  match ch with
  | [] => (inr (inserted, written), [])
  | row :: more =>
      match makeRowValues encodeValue_stream row columns with
      | inl p => (inl p, more)
      | inr rowValues =>
          let written := written ++ [rowValues] in
          let inserted := AddInt64 inserted 1 in
          if inserted >=? batch then (inr (inserted, written), more)
          else producer columns batch inserted written more
      end
  end.

(** The producer and the statement that reads the pipe run concurrently and
    meet at the pipe only.  The model runs the producer when the statement
    that drains the pipe is executed: [txn.Exec(query)] returns after the
    reader has reached the end of the pipe, that is after the producer has
    left its loop, so [inserted] is final when it is read at line 267.  A
    panic of the producer ends the process.  Where the function returns
    before the statement is executed, the producer has not been served and
    the model leaves the channel as it is. *)
Definition run_producer (columns : list string) (batch : Z)
  : M (Z * list (list string)) :=
  fun s =>
    match producer columns batch 0 [] (rowChan s) with
    | (inl p, ch) => (Panicked p, with_rowChan ch s)
    | (inr r, ch) => (Ret r, with_rowChan ch s)
    end.

Definition insertIntoTable (tableName : string) (batch : Z)
  : M (Z * option error) :=
  cols ← get (fun s => GetColumns s tableName);
  match cols with
  | inl err => mret (0, Some (Errorf "failed to get columns: " err))
  | inr columns =>
      let query := loadDataQuery tableName columns in
      _ ← emit (EvRegisterReader tableName);
      r ← txn_Exec sql_no_fk_checks [];
      match r with
      | Some err =>
          _ ← emit (EvDeregisterReader tableName);
          mret (0, Some (Errorf "failed to disable foreign key checks: " err))
      | None =>
          '(inserted, written) ← run_producer columns batch;
          r ← txn_Exec query written;
          _ ← emit (EvDeregisterReader tableName);
          match r with
          | Some err => mret (0, Some (Errorf "failed to execute query: " err))
          | None => mret (inserted, None)
          end
      end
  end.

(** ** The buffered strategy: [insertIntoTableReplace] *)

(** The loop at lines 290-320, on the buffer and the counter. *)
Fixpoint replaceLoop (columns : list string) (batch : Z) (inserted : Z)
    (buf : string) (ch : list Row) : (panic + Z * string) * list Row :=
  match ch with
  | [] => (inr (inserted, buf), [])
  | row :: more =>
      match makeRowValues encodeValue_replace row columns with
      | inl p => (inl p, more)
      | inr rowValues =>
          let buf := if inserted =? 0 then buf else buf +:+ "," in
          let buf := buf +:+ ("(" +:+ Join rowValues "," +:+ ")") in
          let inserted := AddInt64 inserted 1 in
          if inserted >=? batch then (inr (inserted, buf), more)
          else replaceLoop columns batch inserted buf more
      end
  end.

Definition run_replaceLoop (columns : list string) (batch : Z) (buf : string)
  : M (Z * string) :=
  fun s =>
    match replaceLoop columns batch 0 buf (rowChan s) with
    | (inl p, ch) => (Panicked p, with_rowChan ch s)
    | (inr r, ch) => (Ret r, with_rowChan ch s)
    end.

Definition insertIntoTableReplace (tableName : string) (batch : Z)
  : M (Z * option error) :=
  cols ← get (fun s => GetColumns s tableName);
  match cols with
  | inl err => mret (0, Some (Errorf "failed to get columns: " err))
  | inr columns =>
      let buf := "replace into " +:+ tableName +:+ " values " in
      '(inserted, buf) ← run_replaceLoop columns batch buf;
      if inserted =? 0 then mret (0, None)
      else
        r ← txn_Exec sql_no_fk_checks [];
        match r with
        | Some err =>
            mret (0, Some (Errorf "failed to disable foreign key checks: " err))
        | None =>
            r ← txn_Exec buf [];
            match r with
            | Some err => mret (0, Some (Errorf "failed to execute query: " err))
            | None => mret (inserted, None)
            end
        end
  end.

(** ** One batch in one transaction: [trunkInsert] *)

(** [trunkInsert] (line 141) with the strategy it calls as a parameter; the
    source calls [insertIntoTable]. *)
Definition trunkInsertWith (insert : string -> Z -> M (Z * option error))
    (tableName : string) (batch : Z) : M (Z * option error) :=
  r ← conn_Begin;
  match r with
  | Some err => mret (0, Some (Errorf "failed to open transaction: " err))
  | None =>
      '(insertedRows, err) ← insert tableName batch;
      match err with
      | Some err =>
          (* the deferred rollback runs when the function returns; a failed
             rollback is logged only *)
          _ ← txn_Rollback;
          mret (0, Some (Errorf "failed to insert rows: " err))
      | None =>
          _ ← emit (EvLogInserted tableName insertedRows);
          r ← txn_Commit;
          match r with
          | Some err =>
              mret (0, Some (Errorf "failed to commit transaction: " err))
          | None => mret (insertedRows, None)
          end
      end
  end.

Definition trunkInsert : string -> Z -> M (Z * option error) :=
  trunkInsertWith insertIntoTable.

(** ** [DumpStructure] *)

Definition DumpStructure (sql : string) : M (option error) :=
  r ← conn_Exec sql;
  match r with
  | Some err => mret (Some err)
  | None => mret None
  end.

(** ** [DumpTable] *)

(** The function passed to [d.setGlobalInline.Do] (lines 109-124); its
    result is the [err] it leaves in the variable of [DumpTable]. *)
Definition ensureLocalInfile : M (option error) :=
  r ← conn_QueryRow sql_read_local_infile;
  match r with
  | inl err => mret (Some err)
  | inr true => mret None
  | inr false =>
      r ← conn_Exec sql_enable_local_infile;
      match r with
      | Some err => mret (Some err)
      | None =>
          _ ← modify (with_disableGlobalInline true);
          mret None
      end
  end.

(** [sync.Once.Do]: the function runs on the first call only; on later
    calls [err] keeps its initial nil. *)
Definition Once_Do (f : M (option error)) : M (option error) :=
  ran ← get setGlobalInline;
  if ran : bool then mret None
  else
    err ← f;
    _ ← modify (with_setGlobalInline true);
    mret err.

(** The loop [for inserted == batch] (lines 131-136).  The loop need not
    end, so it is run with fuel: one unit per test of the condition. *)
Fixpoint dumpLoop (insert : string -> Z -> M (Z * option error))
    (fuel : nat) (tableName : string) (batch inserted : Z) : M (option error) :=
  match fuel with
  | O => fun s => (Running, s)
  | S fuel =>
      if inserted =? batch then
        '(inserted, err) ← trunkInsertWith insert tableName batch;
        match err with
        | Some err => do_panic (LogPanic err)
        | None => dumpLoop insert fuel tableName batch inserted
        end
      else mret None
  end.

Definition DumpTableWith (insert : string -> Z -> M (Z * option error))
    (fuel : nat) (tableName : string) : M (option error) :=
  err ← Once_Do ensureLocalInfile;
  match err with
  | Some err => mret (Some err)
  | None =>
      batch ← get batch;
      dumpLoop insert fuel tableName batch batch
  end.

(** [DumpTable(tableName, rowChan)] as the source has it, on the channel of
    the session. *)
Definition DumpTable (fuel : nat) (tableName : string) : M (option error) :=
  DumpTableWith insertIntoTable fuel tableName.

(** ** [Close] *)

Definition Close : M (option error) :=
  disable ← get disableGlobalInline;
  errGlobalInline ← (if disable : bool then conn_Exec sql_disable_local_infile
                     else mret None);
  err ← conn_Close;
  match err with
  | Some err =>
      match errGlobalInline with
      | Some errGlobalInline =>
          mret (Some (Errorf
            "failed to close mysql connection and `SET GLOBAL local_infile=0`: "
            errGlobalInline))
      | None => mret (Some (Errorf "failed to close mysql connection: " err))
      end
  | None =>
      match errGlobalInline with
      | Some errGlobalInline =>
          mret (Some (Errorf
            "failed `SET GLOBAL local_infile=0` please do this manually! : "
            errGlobalInline))
      | None => mret None
      end
  end.

(** [NewDumper(conn, rdr, batch)] on a connection to a server whose
    [local_infile] is [infile] and whose calls fail as [flt] says, before any
    table is written; [rows] is the channel of the first [DumpTable] call. *)
Definition NewDumper (flt : nat -> option error) (infile : bool)
    (rdr : string -> error + list string) (batch : Z) (rows : list Row)
  : Session :=
  mkSession [] flt infile rdr false false batch rows.

(** ** The driver: [IsSupported] and [NewConnection] *)

(** What [sql.Open] gives: a connection, seen as the failures its calls
    will meet and the server variable behind it. *)
Record DB : Type := mkDB {
  db_fault : nat -> option error;
  db_local_infile : bool
}.

(** [dumper.ConnOpts], as far as [NewConnection] reads it. *)
Record ConnOpts : Type := mkConnOpts {
  DSN : string;
  Batch : Z;
  MaxConns : Z;
  MaxIdleConns : Z;
  MaxConnLifetime : Z
}.

(** The result of [NewConnection]: the dumper, the data source name the
    connection was opened with and the pool limits set on it. *)
Record Connection : Type := mkConnection {
  dumper : Session;
  dataSourceName : string;
  maxOpenConns : Z;
  maxIdleConns : Z;
  connMaxLifetime : Z
}.

(** [mysql.Config]: the field the driver reads and sets, and all the
    others. *)
Record Config (Settings : Type) : Type := mkConfig {
  MultiStatements : bool;
  settings : Settings
}.
Arguments mkConfig {Settings} _ _.
Arguments MultiStatements {Settings} _.
Arguments settings {Settings} _.

Section Driver.

(** The library functions the driver calls: [mysql.ParseDSN],
    [Config.FormatDSN] and [sql.Open("mysql", _)]. *)
Variable Settings : Type.
Variable ParseDSN : string -> error + Config Settings.
Variable FormatDSN : Config Settings -> string.
Variable sql_Open : string -> error + DB.

Definition IsSupported (dsn : string) : bool :=
  if String.eqb dsn "" then false
  else
    match ParseDSN dsn with
    | inl _ => false
    | inr _ => true
    end.

Definition NewConnection (opts : ConnOpts)
    (rdr : string -> error + list string) : error + Connection :=
  match ParseDSN (DSN opts) with
  | inl err => inl (Errorf "failed to parse mysql dsn: " err)
  | inr dsnCfg =>
      let dsnCfg :=
        if MultiStatements dsnCfg then dsnCfg
        else mkConfig true (settings dsnCfg) in
      match sql_Open (FormatDSN dsnCfg) with
      | inl err => inl (Errorf "failed to open mysql connection: " err)
      | inr conn =>
          inr (mkConnection
                 (NewDumper (db_fault conn) (db_local_infile conn) rdr
                            (Batch opts) [])
                 (FormatDSN dsnCfg)
                 (MaxConns opts) (MaxIdleConns opts) (MaxConnLifetime opts))
      end
  end.

End Driver.

(** * The vocabulary of the properties *)

(** ** Records *)

(** The record of a row, field by field in column order; the row loop of
    the source computes it (lemma [makeRowValues_fields]). *)
Fixpoint fieldsOf (enc : Value -> panic + string) (row : Row)
    (columns : list string) : panic + list string :=
  match columns with
  | [] => inr []
  | col :: columns' =>
      match enc (index row col) with
      | inl p => inl p
      | inr s =>
          match fieldsOf enc row columns' with
          | inl p => inl p
          | inr l => inr (s :: l)
          end
      end
  end.

(** The records of a sequence of rows, up to the first row that panics. *)
Fixpoint recordsOf (enc : Value -> panic + string) (columns : list string)
    (rows : list Row) : panic + list (list string) :=
  match rows with
  | [] => inr []
  | row :: rows' =>
      match makeRowValues enc row columns with
      | inl p => inl p
      | inr r =>
          match recordsOf enc columns rows' with
          | inl p => inl p
          | inr rs => inr (r :: rs)
          end
      end
  end.

(** ** Unquoting *)

(** The inverse the specification speaks of ("stripping the outer backticks
    and collapsing each doubled backtick"); it is not in the source and is
    written from those words.  A text that is not a quoted identifier has no
    reading. *)
Module Unquote.

(** Drop the closing backtick. *)
Fixpoint stripClosing (s : string) : option string :=
  match s with
  | EmptyString => None
  | String c EmptyString =>
      if Ascii.eqb c backtick then Some EmptyString else None
  | String c rest => String c <$> stripClosing rest
  end.

(** Read each doubled backtick as one; a single one is malformed. *)
Fixpoint collapse (s : string) : option string :=
  match s with
  | EmptyString => Some EmptyString
  | String c rest =>
      if Ascii.eqb c backtick then
        match rest with
        | String c' rest' =>
            if Ascii.eqb c' backtick then String backtick <$> collapse rest'
            else None
        | EmptyString => None
        end
      else String c <$> collapse rest
  end.

Definition unquoteIdentifier (s : string) : option string :=
  match s with
  | String c rest =>
      if Ascii.eqb c backtick then stripClosing rest ≫= collapse else None
  | EmptyString => None
  end.

End Unquote.

(** ** Batches *)

(** The number of rows a batch loop may still take while its counter
    stands at [inserted]: the loops test the bound after a row has been
    taken, so at least one row is taken whatever the bound. *)
Definition toTake (batch inserted : Z) : nat :=
  Z.to_nat (Z.max batch 1 - inserted).

(** The row groups of a [replace] statement. *)
Definition rowGroup (rowValues : list string) : string :=
  "(" +:+ Join rowValues "," +:+ ")".

Definition replaceQuery (tableName : string) (recs : list (list string))
  : string :=
  "replace into " +:+ tableName +:+ " values " +:+
  Join (map rowGroup recs) ",".

(** ** What a trace shows *)

(** The transactions opened. *)
Fixpoint transactions (tr : list Event) : nat :=
  match tr with
  | [] => 0%nat
  | EvBegin _ :: tr => S (transactions tr)
  | _ :: tr => transactions tr
  end.

(** The row counts of the batches, as logged before each commit. *)
Fixpoint insertedLog (tr : list Event) : list Z :=
  match tr with
  | [] => []
  | EvLogInserted _ n :: tr => n :: insertedLog tr
  | _ :: tr => insertedLog tr
  end.

(** The records handed to the server through the reader handler. *)
Fixpoint loaded (tr : list Event) : list (list string) :=
  match tr with
  | [] => []
  | EvTxExec _ infile _ :: tr => infile ++ loaded tr
  | _ :: tr => loaded tr
  end.

(** The statements executed in transactions, the preamble apart. *)
Fixpoint statements (tr : list Event) : list string :=
  match tr with
  | [] => []
  | EvTxExec q _ _ :: tr =>
      if String.eqb q sql_no_fk_checks then statements tr
      else q :: statements tr
  | _ :: tr => statements tr
  end.

Fixpoint sumZ (l : list Z) : Z :=
  match l with
  | [] => 0
  | x :: l => x + sumZ l
  end.

(** ** Batches that meet no failure *)

(** No call on the connection fails, now or later. *)
Definition no_faults (s : Session) : Prop := forall k, fault s k = None.

(** The session after a batch that added [new] to the trace and took [n]
    rows from the channel. *)
Definition advance (new : list Event) (n : nat) (s : Session) : Session :=
  with_rowChan (drop n (rowChan s)) (with_trace (trace s ++ new) s).

(** The events of one batch of the streaming strategy that loads [recs],
    and of one batch of the buffered strategy that writes [recs], when
    nothing fails. *)
Definition streamBatch (tableName : string) (columns : list string)
    (recs : list (list string)) : list Event :=
  [EvBegin None; EvRegisterReader tableName;
   EvTxExec sql_no_fk_checks [] None;
   EvTxExec (loadDataQuery tableName columns) recs None;
   EvDeregisterReader tableName;
   EvLogInserted tableName (Z.of_nat (length recs)); EvCommit None].

Definition replaceBatch (tableName : string) (recs : list (list string))
  : list Event :=
  match recs with
  | [] => [EvBegin None; EvLogInserted tableName 0; EvCommit None]
  | _ =>
      [EvBegin None; EvTxExec sql_no_fk_checks [] None;
       EvTxExec (replaceQuery tableName recs) [] None;
       EvLogInserted tableName (Z.of_nat (length recs)); EvCommit None]
  end.

(** ** The toggle *)

(** The events of the one-time toggle. *)
Definition isToggle (ev : Event) : bool :=
  match ev with
  | EvQueryRow _ _ | EvExec _ _ => true
  | _ => false
  end.

Definition toggleOnly (tr : list Event) : Prop :=
  forallb isToggle tr = true.

(** ** The loop *)

(** The sessions in which every batch of a table goes well: the reader
    knows the columns, no call fails, the batch size is at least one, and
    every row in the channel holds values of handled types only. *)
Definition goodFor (enc : Value -> panic + string) (tableName : string)
    (columns : list string) (s : Session) : Prop :=
  GetColumns s tableName = inr columns /\
  no_faults s /\
  1 <= batch s <= int64_max /\
  exists recs, recordsOf enc columns (rowChan s) = inr recs.

(** Streaming: the records loaded are the records of the rows, in order. *)
Definition loadedAre (columns : list string) (rows : list Row)
    (new : list Event) : Prop :=
  forall recs,
    recordsOf encodeValue_stream columns rows = inr recs -> loaded new = recs.

(** Buffered: the statements executed are the [replace] statements of
    consecutive non-empty runs of the records of the rows. *)
Definition replacedAre (tableName : string) (columns : list string)
    (rows : list Row) (new : list Event) : Prop :=
  forall recs,
    recordsOf encodeValue_replace columns rows = inr recs ->
    exists chunks : list (list (list string)),
      concat chunks = recs /\
      Forall (fun c => c <> []) chunks /\
      statements new = map (replaceQuery tableName) chunks.

(** The ceiling of [a / b]. *)
Definition ceilDiv (a b : Z) : Z := - ((- a) / b).

(** The number of batch invocations as the specification gives it for [R]
    rows and batch size [B]. *)
Definition claimedInvocations (R B T : Z) : Prop :=
  (R mod B <> 0 -> T = ceilDiv R B) /\
  (R mod B = 0 -> T = R / B + 1).

(** ** The toggle over a session *)

(** The calls of the toggle in a trace. *)
Definition toggles (tr : list Event) : list Event := List.filter isToggle tr.

(** The reads of the server variable, the attempts to enable it, the
    attempts to disable it, and whether the session has enabled it. *)
Fixpoint reads (tr : list Event) : nat :=
  match tr with
  | [] => 0%nat
  | EvQueryRow _ _ :: tr => S (reads tr)
  | _ :: tr => reads tr
  end.

Fixpoint execs (query : string) (tr : list Event) : nat :=
  match tr with
  | [] => 0%nat
  | EvExec q _ :: tr =>
      if String.eqb q query then S (execs query tr) else execs query tr
  | _ :: tr => execs query tr
  end.

Fixpoint enabledBySession (tr : list Event) : bool :=
  match tr with
  | [] => false
  | EvExec q None :: tr =>
      if String.eqb q sql_enable_local_infile then true
      else enabledBySession tr
  | _ :: tr => enabledBySession tr
  end.

Fixpoint foundEnabled (tr : list Event) : bool :=
  match tr with
  | [] => false
  | EvQueryRow _ (inr true) :: _ => true
  | _ :: tr => foundEnabled tr
  end.

(** What the session knows of the toggle, against what it has done on the
    connection: nothing before the first [DumpTable]; afterwards one read,
    followed by one attempt to enable the variable when the read found it
    off; [disableGlobalInline] is set in the one case where that attempt
    succeeded. *)
Inductive ToggleState : bool -> list Event -> bool -> Prop :=
| NotYet : ToggleState false [] false
| ReadFailed e :
    ToggleState true [EvQueryRow sql_read_local_infile (inl e)] false
| FoundOn :
    ToggleState true [EvQueryRow sql_read_local_infile (inr true)] false
| EnableFailed e :
    ToggleState true [EvQueryRow sql_read_local_infile (inr false);
                      EvExec sql_enable_local_infile (Some e)] false
| Enabled :
    ToggleState true [EvQueryRow sql_read_local_infile (inr false);
                      EvExec sql_enable_local_infile None] true.

Definition toggleInv (s : Session) : Prop :=
  ToggleState (setGlobalInline s) (toggles (trace s)) (disableGlobalInline s).

(** [s'] differs from [s] by calls that are not calls of the toggle. *)
Definition frame (s s' : Session) : Prop :=
  toggles (trace s') = toggles (trace s) /\
  setGlobalInline s' = setGlobalInline s /\
  disableGlobalInline s' = disableGlobalInline s.

(** A session: [DumpTable] is called table after table, each call on a
    channel of its own.  The caller goes on to the next table after a call
    that returned and after one whose [log.Panic] it has recovered from; a
    panic of the producer goroutine ends the process, and nothing follows a
    call that is still running. *)
Fixpoint runCalls (calls : list (nat * string * list Row)) (s : Session)
  : Session :=
  match calls with
  | [] => s
  | (fuel, tableName, rows) :: calls =>
      match DumpTable fuel tableName (with_rowChan rows s) with
      | (Ret _, s') => runCalls calls s'
      | (Panicked (LogPanic _), s') => runCalls calls s'
      | (_, s') => s'
      end
  end.

(** ** Errors *)

(** [target] is the error [e] or is wrapped in it, at any depth
    (what [errors.Is] follows). *)
Fixpoint inChain (target e : error) : Prop :=
  e = target \/
  match e with
  | DbErr _ => False
  | Errorf _ wrapped => inChain target wrapped
  end.

(** ** Values, names and transactions *)

(** The values the type switches have a case for. *)
Definition handled (v : Value) : bool :=
  match v with
  | VOther _ => false
  | _ => true
  end.

(** The occurrences of a byte in a string. *)
Fixpoint countByte (b : ascii) (s : string) : nat :=
  match s with
  | EmptyString => 0%nat
  | String c rest =>
      if Ascii.eqb c b then S (countByte b rest) else countByte b rest
  end.

(** Whether a transaction is open after a trace, for a trace that uses
    transactions as [database/sql] allows: a transaction is begun only when
    none is open, statements are executed, committed and rolled back only
    in an open one, and a commit or a rollback ends the transaction whether
    it fails or not.  [None]: the trace breaks this discipline. *)
Definition txStep (open : bool) (ev : Event) : option bool :=
  match ev with
  | EvBegin None => if open then None else Some true
  | EvBegin (Some _) => if open then None else Some false
  | EvTxExec _ _ _ => if open then Some true else None
  | EvCommit _ | EvRollback _ => if open then Some false else None
  | _ => Some open
  end.

Fixpoint txRun (open : bool) (tr : list Event) : option bool :=
  match tr with
  | [] => Some open
  | ev :: tr =>
      match txStep open ev with
      | Some open' => txRun open' tr
      | None => None
      end
  end.

(** The reader handlers registered and not yet deregistered. *)
Fixpoint registered (tr : list Event) (acc : list string) : list string :=
  match tr with
  | [] => acc
  | EvRegisterReader name :: tr => registered tr (name :: acc)
  | EvDeregisterReader name :: tr =>
      registered tr (List.filter (fun n => negb (String.eqb n name)) acc)
  | _ :: tr => registered tr acc
  end.

(** Whether a call that ended with outcome [o] was cut short by the panic
    of a type assertion (the other panic, [log.Panic], is raised by the loop
    of [DumpTable] between two batches). *)
Definition cutShort {A} (o : Outcome A) : bool :=
  match o with
  | Panicked (TypeAssertion _) => true
  | _ => false
  end.

(** The server variable against its value [init] when the dumper was made,
    for a server that no other session changes: it is on when it was on
    before or the session has enabled it, and the session enables it only
    when it was off. *)
Definition serverInv (init : bool) (s : Session) : Prop :=
  local_infile s = (init || disableGlobalInline s) /\
  (disableGlobalInline s = true -> init = false).

(** Whether every statement of a trace other than the preamble is executed
    right after a preamble that succeeded, in the same transaction;
    [ready]: such a preamble has just been executed. *)
Fixpoint guardedRun (ready : bool) (tr : list Event) : bool :=
  match tr with
  | [] => true
  | EvTxExec q _ res :: tr =>
      if String.eqb q sql_no_fk_checks
      then guardedRun (match res with None => true | Some _ => false end) tr
      else ready && guardedRun false tr
  | EvBegin _ :: tr | EvCommit _ :: tr | EvRollback _ :: tr =>
      guardedRun false tr
  | _ :: tr => guardedRun ready tr
  end.

(** ** Sample inputs *)

Definition sampleRows : list Row :=
  [ {[ "id" := VString "1"; "name" := VString "O'Brien, J" ]};
    {[ "id" := VBytes [x32] ]};
    {[ "id" := VString "3"; "name" := VNil ]} ].

Definition sampleReader (tableName : string) : error + list string :=
  inr ["id"; "name"].

(** An environment in which no call fails, and environments in which the
    calls made at given positions of the trace fail. *)
Definition never : nat -> option error := fun _ => None.

Definition failAt (k : nat) (e : error) : nat -> option error :=
  fun i => if Nat.eqb i k then Some e else None.

Definition failAt2 (k : nat) (e : error) (k' : nat) (e' : error)
  : nat -> option error :=
  fun i => if Nat.eqb i k then Some e
           else if Nat.eqb i k' then Some e' else None.

(** * Properties *)

(** ** Encoding of a row *)

Lemma fillRowValues_fields enc row columns :
  forall (filled rest : list string),
    length rest = length columns ->
    fillRowValues enc row columns (length filled) (filled ++ rest) =
    match fieldsOf enc row columns with
    | inl p => inl p
    | inr l => inr (filled ++ l)
    end.
Proof.
  induction columns as [|col columns IH]; intros filled rest Hlen; simpl.
  - destruct rest; [|discriminate]. reflexivity.
  - destruct rest as [|r rest]; [discriminate|].
    destruct (enc (index row col)) as [p|s]; [reflexivity|].
    replace (<[length filled := s]> (filled ++ r :: rest))
      with ((filled ++ [s]) ++ rest).
    + replace (S (length filled)) with (length (filled ++ [s]))
        by (rewrite length_app; simpl; lia).
      rewrite IH by (simpl in Hlen; lia).
      destruct (fieldsOf enc row columns); [reflexivity|].
      by rewrite <- app_assoc.
    + rewrite <- app_assoc. simpl.
      rewrite insert_app_r_alt by lia.
      by rewrite Nat.sub_diag.
Qed.

Lemma makeRowValues_fields enc row columns :
  makeRowValues enc row columns = fieldsOf enc row columns.
Proof.
  unfold makeRowValues.
  pose proof (fillRowValues_fields enc row columns []
                (replicate (length columns) EmptyString)
                (length_replicate _ _)) as H.
  simpl in H. rewrite H.
  by destruct (fieldsOf enc row columns).
Qed.

Lemma fieldsOf_lookup enc row columns vals :
  fieldsOf enc row columns = inr vals ->
  length vals = length columns /\
  forall (i : nat) (col : string),
    columns !! i = Some col ->
    exists v, vals !! i = Some v /\ enc (index row col) = inr v.
Proof.
  revert vals. induction columns as [|c columns IH]; intros vals H; simpl in H.
  - injection H as <-. split; [reflexivity|]. intros i col Hi. discriminate.
  - destruct (enc (index row c)) as [p|s] eqn:Hs; [discriminate|].
    destruct (fieldsOf enc row columns) as [p|l]; [discriminate|].
    injection H as <-. destruct (IH l eq_refl) as [Hl Hf].
    split; [simpl; congruence|].
    intros [|i] col Hi; simpl in Hi.
    + injection Hi as <-. exists s. by split.
    + apply Hf, Hi.
Qed.

Lemma fieldsOf_ext enc (row row' : Row) columns :
  (forall col, index row col = index row' col) ->
  fieldsOf enc row columns = fieldsOf enc row' columns.
Proof.
  intros H. induction columns as [|c columns IH]; simpl; [reflexivity|].
  by rewrite H, IH.
Qed.

Lemma index_insert_nil (row : Row) (col c : string) :
  row !! col = None -> index (<[col := VNil]> row) c = index row c.
Proof.
  intros H. unfold index. destruct (decide (col = c)) as [->|Hne].
  - by rewrite lookup_insert_eq, H.
  - by rewrite lookup_insert_ne.
Qed.

Lemma encodeValue_agree (v : Value) :
  encodeValue_stream v = encodeValue_replace v.
Proof. by destruct v. Qed.

Lemma makeRowValues_agree row columns :
  makeRowValues encodeValue_stream row columns =
  makeRowValues encodeValue_replace row columns.
Proof.
  rewrite !makeRowValues_fields.
  induction columns as [|c columns IH]; simpl; [reflexivity|].
  by rewrite encodeValue_agree, IH.
Qed.

Lemma recordsOf_agree columns rows :
  recordsOf encodeValue_stream columns rows =
  recordsOf encodeValue_replace columns rows.
Proof.
  induction rows as [|row rows IH]; simpl; [reflexivity|].
  by rewrite makeRowValues_agree, IH.
Qed.

(** C5: the field encoding of the streaming strategy and the one of the
    buffered replace strategy agree on every value: both turn nil into the
    text NULL, a string into itself and a byte slice into the string of the
    same bytes (and both panic on a value of any other dynamic type). *)
Theorem encodeValue_strategies_agree :
  (forall v : Value, encodeValue_stream v = encodeValue_replace v) /\
  encodeValue_stream VNil = inr "NULL" /\
  (forall s : string, encodeValue_stream (VString s) = inr s) /\
  (forall b : list byte,
      exists s, encodeValue_stream (VBytes b) = inr s /\
                list_byte_of_string s = b) /\
  (forall columns row,
      makeRowValues encodeValue_stream row columns =
      makeRowValues encodeValue_replace row columns).
Proof.
  split; [exact encodeValue_agree|].
  split; [reflexivity|]. split; [reflexivity|]. split.
  - intros b. exists (string_of_list_byte b). split; [reflexivity|].
    apply list_byte_of_string_of_list_byte.
  - intros columns row. apply makeRowValues_agree.
Qed.

(** C10: in both strategies a column that the row has no entry for is
    encoded as the text NULL, exactly as a column whose entry is nil, and
    every other column is encoded from the row's own entry. *)
Theorem missing_field_encodes_as_null
    (row : Row) (columns : list string) (col : string) :
  row !! col = None ->
  encodeValue_stream (index row col) = inr "NULL" /\
  encodeValue_replace (index row col) = inr "NULL" /\
  makeRowValues encodeValue_stream row columns =
    makeRowValues encodeValue_stream (<[col := VNil]> row) columns /\
  makeRowValues encodeValue_replace row columns =
    makeRowValues encodeValue_replace (<[col := VNil]> row) columns /\
  forall enc vals,
    enc = encodeValue_stream \/ enc = encodeValue_replace ->
    makeRowValues enc row columns = inr vals ->
    length vals = length columns /\
    forall (i : nat) (c : string),
      columns !! i = Some c ->
      exists v, vals !! i = Some v /\
                enc (index row c) = inr v /\
                (c = col -> v = "NULL").
Proof.
  intros Hmiss.
  assert (Hidx : index row col = VNil) by (unfold index; by rewrite Hmiss).
  rewrite Hidx.
  split; [reflexivity|]. split; [reflexivity|]. split; [|split].
  - rewrite !makeRowValues_fields. apply fieldsOf_ext.
    intros c. symmetry. by apply index_insert_nil.
  - rewrite !makeRowValues_fields. apply fieldsOf_ext.
    intros c. symmetry. by apply index_insert_nil.
  - intros enc vals Henc Hvals. rewrite makeRowValues_fields in Hvals.
    apply fieldsOf_lookup in Hvals as [Hlen Hf].
    split; [exact Hlen|].
    intros i c Hc.
    destruct (Hf i c Hc) as (v & Hv & He). exists v.
    split; [exact Hv|]. split; [exact He|].
    intros ->. rewrite Hidx in He.
    destruct Henc as [-> | ->]; simpl in He; injection He as <-; reflexivity.
Qed.

Lemma missing_field_encodes_as_null_witness :
  let row : Row := {[ "id" := VString "7" ]} in
  makeRowValues encodeValue_stream row ["id"; "email"] = inr ["7"; "NULL"] /\
  makeRowValues encodeValue_stream row ["id"; "email"] =
    makeRowValues encodeValue_stream (<[ "email" := VNil ]> row) ["id"; "email"].
Proof.
  intros row. split; [reflexivity|].
  apply (missing_field_encodes_as_null row ["id"; "email"] "email").
  reflexivity.
Defined.

(** ** Identifier quoting *)

Lemma stripClosing_app (body : string) :
  Unquote.stripClosing (body +:+ "`") = Some body.
Proof.
  induction body as [|c body IH]; [reflexivity|].
  change (String c body +:+ "`") with (String c (body +:+ "`")).
  destruct body as [|c' body].
  - simpl. reflexivity.
  - change (Unquote.stripClosing (String c (String c' body +:+ "`")))
      with (String c <$> Unquote.stripClosing (String c' body +:+ "`")).
    by rewrite IH.
Qed.

Lemma collapse_doubled (name : string) :
  Unquote.collapse (ReplaceByte name backtick "``") = Some name.
Proof.
  induction name as [|c name IH]; [reflexivity|].
  simpl. destruct (Ascii.eqb c backtick) eqn:Hc.
  - apply Ascii.eqb_eq in Hc as ->.
    change (Unquote.collapse (String backtick
              (String backtick (ReplaceByte name backtick "``")))
            = Some (String backtick name)).
    cbn [Unquote.collapse]. rewrite Ascii.eqb_refl. by rewrite IH.
  - cbn [Unquote.collapse]. rewrite Hc. by rewrite IH.
Qed.

(** C6: [quoteIdentifier] puts the name, with every backtick in it doubled,
    between two backticks; unquoting (dropping the outer backticks and
    reading each doubled backtick as one) gives the name back, whatever the
    name contains, so two names with the same quoted form are equal. *)
Theorem quoteIdentifier_roundtrip :
  (forall name,
      quoteIdentifier name =
      String backtick (ReplaceByte name backtick "``" +:+ "`")) /\
  (forall c name,
      ReplaceByte (String c name) backtick "``" =
      if Ascii.eqb c backtick
      then String backtick (String backtick (ReplaceByte name backtick "``"))
      else String c (ReplaceByte name backtick "``")) /\
  (forall name, Unquote.unquoteIdentifier (quoteIdentifier name) = Some name) /\
  (forall name name',
      quoteIdentifier name = quoteIdentifier name' -> name = name').
Proof.
  assert (Hrt : forall name,
             Unquote.unquoteIdentifier (quoteIdentifier name) = Some name).
  { intros name.
    change (quoteIdentifier name)
      with (String backtick (ReplaceByte name backtick "``" +:+ "`")).
    cbn [Unquote.unquoteIdentifier]. rewrite Ascii.eqb_refl.
    rewrite stripClosing_app. apply collapse_doubled. }
  split; [reflexivity|]. split; [|split].
  - intros c name. simpl. by destruct (Ascii.eqb c backtick).
  - exact Hrt.
  - intros name name' H.
    assert (Some name = Some name') as [= ->]; [|reflexivity].
    by rewrite <- (Hrt name), <- (Hrt name'), H.
Qed.

Example quoteIdentifier_backtick :
  quoteIdentifier "a`b" = "`a``b`" /\
  Unquote.unquoteIdentifier "`a``b`" = Some "a`b".
Proof. split; reflexivity. Qed.

(** ** One batch *)

Lemma append_cons (c : ascii) (a b : string) :
  String c a +:+ b = String c (a +:+ b).
Proof. reflexivity. Qed.

Lemma append_assoc (a b c : string) : (a +:+ b) +:+ c = a +:+ (b +:+ c).
Proof.
  induction a as [|x a IH]; [reflexivity|].
  rewrite !append_cons. by rewrite IH.
Qed.

Lemma append_nil_r (a : string) : a +:+ "" = a.
Proof.
  induction a as [|x a IH]; [reflexivity|].
  rewrite append_cons. by rewrite IH.
Qed.

Lemma AddInt64_succ (x : Z) :
  int64_min <= x < int64_max -> AddInt64 x 1 = x + 1.
Proof.
  unfold AddInt64, wrap64, int64_min, int64_max. intros H.
  rewrite Z.mod_small; lia.
Qed.

Lemma toTake_pos batch inserted :
  inserted < batch \/ inserted = 0 ->
  exists n, toTake batch inserted = S n.
Proof.
  intros H. unfold toTake.
  exists (Z.to_nat (Z.max batch 1 - inserted - 1)). lia.
Qed.

Lemma toTake_succ batch inserted n :
  0 <= inserted -> toTake batch inserted = S n ->
  toTake batch (inserted + 1) = n /\
  ((inserted + 1 >=? batch) = true -> n = 0%nat) /\
  ((inserted + 1 >=? batch) = false -> inserted + 1 < batch).
Proof. unfold toTake. intros H0 H. lia. Qed.

(** The producer takes [toTake batch inserted] rows, or all the rows if the
    channel holds fewer, counts each and writes their records in order; it
    panics at the first row that holds a value of an unhandled type. *)
Lemma producer_spec columns batch :
  is_int64 batch ->
  forall ch inserted written,
    0 <= inserted -> inserted < batch \/ inserted = 0 ->
    let n := toTake batch inserted in
    match recordsOf encodeValue_stream columns (take n ch) with
    | inr recs =>
        producer columns batch inserted written ch =
        (inr (inserted + Z.of_nat (length (take n ch)), written ++ recs),
         drop n ch)
    | inl p => exists rest, producer columns batch inserted written ch = (inl p, rest)
    end.
Proof.
  intros HB. induction ch as [|row more IH]; intros inserted written H0 Hlt n.
  - rewrite take_nil, drop_nil. simpl. by rewrite Z.add_0_r, app_nil_r.
  - subst n. destruct (toTake_pos batch inserted Hlt) as [n Hn]. rewrite Hn.
    destruct (toTake_succ batch inserted n H0 Hn) as (Hn' & Hge & Hnge).
    cbn [take drop recordsOf producer].
    destruct (makeRowValues encodeValue_stream row columns) as [p|r];
      [by eexists|].
    rewrite AddInt64_succ
      by (unfold is_int64, int64_min, int64_max in *; lia).
    destruct (inserted + 1 >=? batch) eqn:Hcmp.
    + rewrite (Hge eq_refl). rewrite take_0, drop_0. cbn [recordsOf length].
      by replace (inserted + Z.of_nat 1) with (inserted + 1) by lia.
    + specialize (IH (inserted + 1) (written ++ [r])
                     ltac:(lia) (or_introl (Hnge eq_refl))).
      rewrite Hn' in IH. cbn zeta in IH.
      destruct (recordsOf encodeValue_stream columns (take n more)) as [p|recs];
        [exact IH|].
      rewrite IH. rewrite <- app_assoc. cbn [length app].
      rewrite Nat2Z.inj_succ.
      set (k := Z.of_nat (length (take n more))).
      by replace (inserted + Z.succ k) with (inserted + 1 + k) by lia.
Qed.

Lemma replaceLoop_spec columns batch :
  is_int64 batch ->
  forall ch inserted buf,
    0 <= inserted -> inserted < batch \/ inserted = 0 ->
    let n := toTake batch inserted in
    match recordsOf encodeValue_replace columns (take n ch) with
    | inr recs =>
        replaceLoop columns batch inserted buf ch =
        (inr (inserted + Z.of_nat (length (take n ch)),
              match recs with
              | [] => buf
              | _ => buf +:+ (if inserted =? 0 then "" else ",") +:+
                     Join (map rowGroup recs) ","
              end),
         drop n ch)
    | inl p => exists rest, replaceLoop columns batch inserted buf ch = (inl p, rest)
    end.
Proof.
  intros HB. induction ch as [|row more IH]; intros inserted buf H0 Hlt n.
  - rewrite take_nil, drop_nil. simpl. by rewrite Z.add_0_r.
  - subst n. destruct (toTake_pos batch inserted Hlt) as [n Hn]. rewrite Hn.
    destruct (toTake_succ batch inserted n H0 Hn) as (Hn' & Hge & Hnge).
    cbn [take drop recordsOf replaceLoop].
    destruct (makeRowValues encodeValue_replace row columns) as [p|r];
      [by eexists|].
    rewrite AddInt64_succ
      by (unfold is_int64, int64_min, int64_max in *; lia).
    fold (rowGroup r).
    assert (Hbuf : (if inserted =? 0 then buf else buf +:+ ",") =
                   buf +:+ (if inserted =? 0 then "" else ","))
      by (destruct (inserted =? 0); [by rewrite append_nil_r | reflexivity]).
    rewrite Hbuf. clear Hbuf.
    destruct (inserted + 1 >=? batch) eqn:Hcmp.
    + rewrite (Hge eq_refl). rewrite take_0, drop_0.
      cbn [recordsOf length map]. unfold Join. cbn [concat].
      replace (inserted + Z.of_nat 1) with (inserted + 1) by lia.
      by rewrite append_assoc.
    + specialize (IH (inserted + 1)
                     ((buf +:+ (if inserted =? 0 then "" else ",")) +:+ rowGroup r)
                     ltac:(lia) (or_introl (Hnge eq_refl))).
      rewrite Hn' in IH. cbn zeta in IH.
      destruct (recordsOf encodeValue_replace columns (take n more)) as [p|recs];
        [exact IH|].
      rewrite IH. cbn [length]. rewrite Nat2Z.inj_succ.
      set (k := Z.of_nat (length (take n more))).
      replace (inserted + Z.succ k) with (inserted + 1 + k) by lia.
      destruct recs as [|r' recs].
      * cbn [map]. unfold Join. cbn [concat]. by rewrite append_assoc.
      * replace (inserted + 1 =? 0) with false by lia.
        cbn [map]. unfold Join. cbn [concat].
        by rewrite !append_assoc.
Qed.

(** ** Traces and concatenation *)

Lemma transactions_app tr tr' :
  transactions (tr ++ tr') = (transactions tr + transactions tr')%nat.
Proof.
  induction tr as [|[] tr IH]; simpl; try done. by rewrite IH.
Qed.

Lemma insertedLog_app tr tr' :
  insertedLog (tr ++ tr') = insertedLog tr ++ insertedLog tr'.
Proof.
  induction tr as [|[] tr IH]; simpl; try done. by rewrite IH.
Qed.

Lemma loaded_app tr tr' : loaded (tr ++ tr') = loaded tr ++ loaded tr'.
Proof.
  induction tr as [|[] tr IH]; simpl; try done.
  by rewrite IH, app_assoc.
Qed.

Lemma sumZ_app l l' : sumZ (l ++ l') = sumZ l + sumZ l'.
Proof. induction l as [|x l IH]; simpl; lia. Qed.

Lemma sumZ_replicate n x : sumZ (replicate n x) = Z.of_nat n * x.
Proof. induction n as [|n IH]; [reflexivity|]. cbn [replicate sumZ]. lia. Qed.

(** ** A batch that meets no failure *)

Lemma advance_advance new new' n n' s :
  advance new' n' (advance new n s) = advance (new ++ new') (n + n') s.
Proof.
  unfold advance, with_rowChan, with_trace. simpl.
  by rewrite drop_drop, app_assoc.
Qed.

(** Running a monadic definition on a session: unfold the operations,
    compute, and use the facts at hand wherever the computation waits for
    one. *)
Ltac unfold_M :=
  unfold txn_Exec, txn_Commit, txn_Rollback, conn_Begin, conn_Close,
    conn_Exec, conn_QueryRow, next_fault, emit, modify, get, do_panic,
    run_producer, run_replaceLoop;
  unfold mbind, M_bind, mret, M_ret.

Ltac compute_M :=
  cbn -[producer replaceLoop loadDataQuery replaceQuery String.append
        String.eqb Z.eqb Z.geb makeRowValues Join].

Ltac run_M tac := unfold_M; repeat (compute_M; progress tac); compute_M.

Lemma recordsOf_length enc columns rows recs :
  recordsOf enc columns rows = inr recs -> length recs = length rows.
Proof.
  revert recs. induction rows as [|row rows IH]; intros recs H; simpl in H.
  - by injection H as <-.
  - destruct (makeRowValues enc row columns); [discriminate|].
    destruct (recordsOf enc columns rows); [discriminate|].
    injection H as <-. simpl. by rewrite (IH _ eq_refl).
Qed.

Lemma trunkInsert_stream_ok s tableName columns recs :
  GetColumns s tableName = inr columns ->
  no_faults s ->
  1 <= batch s <= int64_max ->
  let n := Z.to_nat (batch s) in
  recordsOf encodeValue_stream columns (take n (rowChan s)) = inr recs ->
  trunkInsert tableName (batch s) s =
  (Ret (Z.of_nat (length recs), None),
   advance (streamBatch tableName columns recs) n s).
Proof.
  intros Hcols Hnf HB n Hrecs.
  assert (HB' : is_int64 (batch s))
    by (unfold is_int64, int64_min, int64_max in *; lia).
  pose proof (producer_spec columns (batch s) HB' (rowChan s) 0 []
                ltac:(lia) (or_intror eq_refl)) as Hp.
  cbn zeta in Hp.
  replace (toTake (batch s) 0) with n in Hp by (unfold toTake; lia).
  rewrite Hrecs in Hp. rewrite <- (recordsOf_length _ _ _ _ Hrecs) in Hp.
  unfold trunkInsert, trunkInsertWith, insertIntoTable.
  run_M ltac:(first [rewrite Hnf | rewrite Hcols | rewrite Hp]).
  unfold advance, streamBatch, with_trace, with_rowChan. simpl.
  rewrite <- !app_assoc. simpl. reflexivity.
Qed.

Lemma replaceQuery_buf tableName recs :
  ("replace into " +:+ tableName +:+ " values ") +:+
  (if 0 =? 0 then "" else ",") +:+ Join (map rowGroup recs) "," =
  replaceQuery tableName recs.
Proof.
  unfold replaceQuery. change (if 0 =? 0 then "" else ",") with "".
  change ("" +:+ Join (map rowGroup recs) ",")
    with (Join (map rowGroup recs) ",").
  by rewrite !append_assoc.
Qed.

Lemma trunkInsert_replace_ok s tableName columns recs :
  GetColumns s tableName = inr columns ->
  no_faults s ->
  1 <= batch s <= int64_max ->
  let n := Z.to_nat (batch s) in
  recordsOf encodeValue_replace columns (take n (rowChan s)) = inr recs ->
  trunkInsertWith insertIntoTableReplace tableName (batch s) s =
  (Ret (Z.of_nat (length recs), None),
   advance (replaceBatch tableName recs) n s).
Proof.
  intros Hcols Hnf HB n Hrecs.
  assert (HB' : is_int64 (batch s))
    by (unfold is_int64, int64_min, int64_max in *; lia).
  pose proof (replaceLoop_spec columns (batch s) HB' (rowChan s) 0
                ("replace into " +:+ tableName +:+ " values ")
                ltac:(lia) (or_intror eq_refl)) as Hp.
  cbn zeta in Hp.
  replace (toTake (batch s) 0) with n in Hp by (unfold toTake; lia).
  rewrite Hrecs in Hp. rewrite <- (recordsOf_length _ _ _ _ Hrecs) in Hp.
  rewrite Z.add_0_l in Hp.
  unfold trunkInsertWith, insertIntoTableReplace.
  destruct recs as [|r recs].
  - change (Z.of_nat (length [])) with 0 in Hp.
    run_M ltac:(first [rewrite Hnf | rewrite Hcols | rewrite Hp
                      | change (0 =? 0) with true]).
    unfold advance, replaceBatch, with_trace, with_rowChan. simpl.
    rewrite <- ?app_assoc. reflexivity.
  - assert (Hnz : (Z.of_nat (S (length recs)) =? 0) = false)
      by (apply Z.eqb_neq; lia).
    rewrite replaceQuery_buf in Hp.
    run_M ltac:(first [rewrite Hnf | rewrite Hcols | rewrite Hp | rewrite Hnz]).
    unfold advance, replaceBatch, with_trace, with_rowChan. compute_M.
    rewrite <- ?app_assoc. reflexivity.
Qed.

(** C7: when the channel holds a row, the rows of the batch hold values
    of handled types only, and the preamble succeeds, the buffered strategy
    executes one statement after the preamble, and its text is
    "replace into ", the table name as given, " values " and, between
    commas, one parenthesised group per row of the row's encoded fields
    between commas: no field is quoted or escaped. *)
Theorem replace_statement_text s tableName columns recs :
  GetColumns s tableName = inr columns ->
  is_int64 (batch s) ->
  rowChan s <> [] ->
  let n := Z.to_nat (Z.max (batch s) 1) in
  recordsOf encodeValue_replace columns (take n (rowChan s)) = inr recs ->
  fault s (length (trace s)) = None ->
  let query :=
    "replace into " +:+ tableName +:+ " values " +:+
    Join (map (fun rowValues => "(" +:+ Join rowValues "," +:+ ")") recs) "," in
  let res := fault s (S (length (trace s))) in
  recs <> [] /\
  length recs = length (take n (rowChan s)) /\
  exists r,
    insertIntoTableReplace tableName (batch s) s =
    (Ret r, advance [EvTxExec sql_no_fk_checks [] None;
                     EvTxExec query [] res] n s) /\
    r = match res with
        | None => (Z.of_nat (length recs), None)
        | Some err => (0, Some (Errorf "failed to execute query: " err))
        end.
Proof.
  intros Hcols HB Hne n Hrecs Hpre query res.
  pose proof (replaceLoop_spec columns (batch s) HB (rowChan s) 0
                ("replace into " +:+ tableName +:+ " values ")
                ltac:(lia) (or_intror eq_refl)) as Hp.
  cbn zeta in Hp.
  replace (toTake (batch s) 0) with n in Hp by (unfold toTake; lia).
  rewrite Hrecs in Hp.
  pose proof (recordsOf_length _ _ _ _ Hrecs) as Hlen.
  assert (Hn : exists m, n = S m) by (exists (Z.to_nat (Z.max (batch s) 1 - 1)); lia).
  destruct Hn as [m Hn].
  destruct recs as [|r recs].
  { exfalso. rewrite Hn in Hlen. destruct (rowChan s); [done|discriminate]. }
  split; [done|]. split; [exact Hlen|].
  rewrite <- Hlen, Z.add_0_l in Hp.
  assert (Hnz : (Z.of_nat (S (length recs)) =? 0) = false)
    by (apply Z.eqb_neq; lia).
  rewrite replaceQuery_buf in Hp.
  change (replaceQuery tableName (r :: recs)) with query in Hp.
  unfold insertIntoTableReplace.
  run_M ltac:(first [rewrite Hpre | rewrite Hcols | rewrite Hp | rewrite Hnz]).
  rewrite length_app, Nat.add_1_r. fold res.
  destruct res as [err|]; compute_M.
  - eexists. split; [|reflexivity].
    unfold advance, with_trace, with_rowChan. compute_M.
    by rewrite <- ?app_assoc.
  - eexists. split; [|reflexivity].
    unfold advance, with_trace, with_rowChan. compute_M.
    by rewrite <- ?app_assoc.
Qed.

Lemma replace_statement_text_witness :
  let s := NewDumper never true sampleReader 2 sampleRows in
  insertIntoTableReplace "users" 2 s =
  (Ret (2, None),
   advance [EvTxExec sql_no_fk_checks [] None;
            EvTxExec "replace into users values (1,O'Brien, J),(2,NULL)"
                     [] None] 2 s).
Proof.
  intros s.
  assert (Hne : rowChan s <> []) by discriminate.
  assert (HB : is_int64 (batch s)) by (split; discriminate).
  destruct (replace_statement_text s "users" ["id"; "name"]
              [["1"; "O'Brien, J"]; ["2"; "NULL"]]
              eq_refl HB Hne eq_refl eq_refl) as (_ & _ & r & Hrun & Hr).
  rewrite Hr in Hrun. exact Hrun.
Defined.

(** ** The size of a batch *)

Lemma insertIntoTable_count s tableName B n e s' :
  is_int64 B ->
  insertIntoTable tableName B s = (Ret (n, e), s') ->
  0 <= n <= Z.of_nat (length (take (toTake B 0) (rowChan s))).
Proof.
  intros HB.
  unfold insertIntoTable. unfold_M. compute_M.
  destruct (GetColumns s tableName) as [err|columns]; compute_M.
  { intros [= <- _ _]. lia. }
  destruct (fault s _); compute_M.
  { intros [= <- _ _]. lia. }
  pose proof (producer_spec columns B HB (rowChan s) 0 []
                ltac:(lia) (or_intror eq_refl)) as Hp.
  cbn zeta in Hp.
  destruct (recordsOf encodeValue_stream columns
              (take (toTake B 0) (rowChan s))) as [p|recs].
  { destruct Hp as [rest ->]. discriminate. }
  rewrite Hp. compute_M.
  destruct (fault s _); compute_M; intros [= <- _ _]; lia.
Qed.

Lemma insertIntoTableReplace_count s tableName B n e s' :
  is_int64 B ->
  insertIntoTableReplace tableName B s = (Ret (n, e), s') ->
  0 <= n <= Z.of_nat (length (take (toTake B 0) (rowChan s))).
Proof.
  intros HB.
  unfold insertIntoTableReplace. unfold_M. compute_M.
  destruct (GetColumns s tableName) as [err|columns]; compute_M.
  { intros [= <- _ _]. lia. }
  pose proof (replaceLoop_spec columns B HB (rowChan s) 0
                ("replace into " +:+ tableName +:+ " values ")
                ltac:(lia) (or_intror eq_refl)) as Hp.
  cbn zeta in Hp.
  destruct (recordsOf encodeValue_replace columns
              (take (toTake B 0) (rowChan s))) as [p|recs].
  { destruct Hp as [rest ->]. discriminate. }
  rewrite Hp. compute_M.
  destruct (0 + Z.of_nat _ =? 0); compute_M.
  { intros [= <- _ _]. lia. }
  destruct (fault s _); compute_M.
  { intros [= <- _ _]. lia. }
  destruct (fault s _); compute_M; intros [= <- _ _]; lia.
Qed.

(** ** The loop of [DumpTable] over batches that meet no failure *)

Lemma advance_past new (n m : nat) s :
  (length (rowChan s) <= n)%nat -> (length (rowChan s) <= m)%nat ->
  advance new n s = advance new m s.
Proof.
  intros Hn Hm. unfold advance, with_rowChan. simpl.
  by rewrite !drop_ge.
Qed.

(** Where no call fails the toggle lets the table write go on; it leaves
    the channel, the reader, the batch size and the failures to come as they
    are. *)
Lemma Once_Do_no_faults s :
  no_faults s ->
  exists pre s1,
    Once_Do ensureLocalInfile s = (Ret None, s1) /\
    trace s1 = trace s ++ pre /\ toggleOnly pre /\
    fault s1 = fault s /\ GetColumns s1 = GetColumns s /\
    batch s1 = batch s /\ rowChan s1 = rowChan s.
Proof.
  intros Hnf. unfold Once_Do, ensureLocalInfile. unfold_M. compute_M.
  destruct (setGlobalInline s); compute_M.
  { exists [], s. by rewrite app_nil_r. }
  rewrite Hnf. compute_M.
  destruct (local_infile s); compute_M.
  - eexists [_], _. by repeat split.
  - rewrite Hnf. compute_M.
    eexists [_; _], _. split; [reflexivity|].
    split; [compute_M; by rewrite <- app_assoc|]. by repeat split.
Qed.

Section Loop.

Variable insert : string -> Z -> M (Z * option error).
Variable tableName : string.

(** The sessions in which a batch goes well, and what the events of a
    batch have to do with the rows it took. *)
Variable good : Session -> Prop.
Variable Q : list Row -> list Event -> Prop.

Hypothesis Q_app : forall rows rows' new new',
    Q rows new -> Q rows' new' -> Q (rows ++ rows') (new ++ new').

Hypothesis good_batch : forall s, good s -> 1 <= batch s.

Hypothesis good_no_faults : forall s, good s -> no_faults s.

Hypothesis good_ext : forall s s1,
    good s ->
    fault s1 = fault s -> GetColumns s1 = GetColumns s ->
    batch s1 = batch s -> rowChan s1 = rowChan s ->
    good s1.

Hypothesis batch_ok : forall s,
    good s ->
    let n := Z.to_nat (batch s) in
    let k := Z.of_nat (length (take n (rowChan s))) in
    exists new,
      trunkInsertWith insert tableName (batch s) s =
        (Ret (k, None), advance new n s) /\
      transactions new = 1%nat /\
      insertedLog new = [k] /\
      Q (take n (rowChan s)) new /\
      good (advance new n s).

Lemma dumpLoop_spec : forall fuel s,
    good s ->
    let R := Z.of_nat (length (rowChan s)) in
    let B := batch s in
    (Z.to_nat (R / B) + 1 < fuel)%nat ->
    exists new,
      dumpLoop insert fuel tableName B B s =
        (Ret None, advance new (length (rowChan s)) s) /\
      transactions new = (Z.to_nat (R / B) + 1)%nat /\
      insertedLog new = replicate (Z.to_nat (R / B)) B ++ [R mod B] /\
      Q (rowChan s) new.
Proof.
  induction fuel as [|fuel IH]; intros s Hg R B Hfuel; [lia|].
  pose proof (good_batch s Hg) as HB. fold B in HB.
  destruct (batch_ok s Hg) as (new & Hrun & Ht & Hl & HQ & Hg').
  fold B in Hrun, Hl, HQ, Hg'.
  cbn [dumpLoop]. rewrite Z.eqb_refl.
  unfold mbind, M_bind. rewrite Hrun. cbn beta iota.
  set (n := Z.to_nat B) in *.
  destruct (decide (length (rowChan s) < n)%nat) as [Hlt|Hge].
  - (* the last batch: fewer rows than the bound *)
    rewrite take_ge in Hrun, Hl, HQ |- * by lia.
    assert (HRB : R < B) by (subst R n; lia).
    rewrite Z.div_small in Hfuel |- * by lia.
    rewrite Z.mod_small by lia.
    destruct fuel as [|fuel]; [simpl in Hfuel; lia|].
    cbn [dumpLoop]. fold R.
    replace (R =? B) with false by lia.
    exists new. split; [|done].
    unfold mret, M_ret. f_equal. apply advance_past; lia.
  - (* a full batch: the loop goes on *)
    assert (Hk : Z.of_nat (length (take n (rowChan s))) = B)
      by (rewrite length_take; subst n; lia).
    rewrite Hk in Hl |- *.
    assert (Hlen : length (rowChan (advance new n s)) =
                   (length (rowChan s) - n)%nat)
      by (unfold advance; simpl; apply length_drop).
    assert (HR : R = (R - B) + 1 * B) by lia.
    assert (Hdiv : R / B = (R - B) / B + 1)
      by (rewrite HR at 1; apply Z.div_add; lia).
    assert (Hmod : R mod B = (R - B) mod B)
      by (rewrite HR at 1; apply Z.mod_add; lia).
    assert (H0 : 0 <= (R - B) / B)
      by (apply Z.div_pos; subst R n; lia).
    specialize (IH (advance new n s) Hg').
    change (batch (advance new n s)) with B in IH.
    rewrite Hlen in IH. cbn zeta in IH.
    replace (Z.of_nat (length (rowChan s) - n)) with (R - B) in IH
      by (subst R n; lia).
    destruct IH as (new' & Hrun' & Ht' & Hl' & HQ'); [lia|].
    exists (new ++ new'). rewrite Hrun'. repeat split.
    + rewrite advance_advance. f_equal. f_equal. lia.
    + rewrite transactions_app, Ht, Ht', Hdiv. lia.
    + rewrite insertedLog_app, Hl, Hl', Hdiv, Hmod.
      replace (Z.to_nat ((R - B) / B + 1))
        with (S (Z.to_nat ((R - B) / B))) by lia.
      reflexivity.
    + rewrite <- (take_drop n (rowChan s)). by apply Q_app.
Qed.

(** The whole of [DumpTable]: the toggle, then the loop. *)
Lemma DumpTableWith_spec : forall fuel s,
    good s ->
    let R := Z.of_nat (length (rowChan s)) in
    let B := batch s in
    (Z.to_nat (R / B) + 1 < fuel)%nat ->
    exists s' pre new,
      DumpTableWith insert fuel tableName s = (Ret None, s') /\
      trace s' = trace s ++ pre ++ new /\
      rowChan s' = [] /\
      toggleOnly pre /\
      transactions new = (Z.to_nat (R / B) + 1)%nat /\
      insertedLog new = replicate (Z.to_nat (R / B)) B ++ [R mod B] /\
      Q (rowChan s) new.
Proof.
  intros fuel s Hg R B Hfuel.
  destruct (Once_Do_no_faults s (good_no_faults s Hg))
    as (pre & s1 & Hrun & Htr & Hpre & Hf & Hc & Hb & Hch).
  pose proof (good_ext s s1 Hg Hf Hc Hb Hch) as Hg1.
  destruct (dumpLoop_spec fuel s1 Hg1) as (new & Hloop & Ht & Hl & HQ).
  { rewrite Hb, Hch. exact Hfuel. }
  rewrite Hb, Hch in Hloop, Ht, Hl. rewrite Hch in HQ.
  fold R B in Hloop, Ht, Hl.
  exists (advance new (length (rowChan s)) s1), pre, new.
  unfold DumpTableWith, get. unfold mbind, M_bind, mret, M_ret.
  rewrite Hrun. cbn beta iota. rewrite Hb. fold B. rewrite Hloop.
  repeat split; try done.
  - unfold advance. simpl. by rewrite Htr, app_assoc.
  - unfold advance. simpl. rewrite Hch. apply drop_all.
Qed.

End Loop.

(** ** The two strategies under the loop *)

Lemma recordsOf_app enc columns rows rows' :
  recordsOf enc columns (rows ++ rows') =
  match recordsOf enc columns rows with
  | inl p => inl p
  | inr recs =>
      match recordsOf enc columns rows' with
      | inl p => inl p
      | inr recs' => inr (recs ++ recs')
      end
  end.
Proof.
  induction rows as [|row rows IH]; simpl.
  - by destruct (recordsOf enc columns rows').
  - destruct (makeRowValues enc row columns); [reflexivity|].
    rewrite IH. destruct (recordsOf enc columns rows); [reflexivity|].
    by destruct (recordsOf enc columns rows').
Qed.

Lemma recordsOf_take_drop enc columns rows recs (n : nat) :
  recordsOf enc columns rows = inr recs ->
  recordsOf enc columns (take n rows) = inr (take n recs) /\
  recordsOf enc columns (drop n rows) = inr (drop n recs).
Proof.
  revert rows recs. induction n as [|n IH]; intros rows recs H.
  - by rewrite !take_0, !drop_0.
  - destruct rows as [|row rows]; simpl in H.
    + injection H as <-. by split.
    + destruct (makeRowValues enc row columns) as [p|r] eqn:Hr; [discriminate|].
      destruct (recordsOf enc columns rows) as [p|rs] eqn:Hrs; [discriminate|].
      injection H as <-. destruct (IH rows rs Hrs) as [Ht Hd].
      cbn [take drop recordsOf]. by rewrite Hr, Ht, Hd.
Qed.

Lemma statements_app tr tr' :
  statements (tr ++ tr') = statements tr ++ statements tr'.
Proof.
  induction tr as [|[] tr IH]; simpl; try done.
  destruct (String.eqb _ _); by rewrite IH.
Qed.

Lemma loadedAre_app columns rows rows' new new' :
  loadedAre columns rows new -> loadedAre columns rows' new' ->
  loadedAre columns (rows ++ rows') (new ++ new').
Proof.
  intros H H' recs Hrecs. rewrite recordsOf_app in Hrecs.
  destruct (recordsOf encodeValue_stream columns rows) as [|r] eqn:Hr;
    [discriminate|].
  destruct (recordsOf encodeValue_stream columns rows') as [|r'] eqn:Hr';
    [discriminate|].
  injection Hrecs as <-.
  by rewrite loaded_app, (H r Hr), (H' r' Hr').
Qed.

Lemma replacedAre_app tableName columns rows rows' new new' :
  replacedAre tableName columns rows new ->
  replacedAre tableName columns rows' new' ->
  replacedAre tableName columns (rows ++ rows') (new ++ new').
Proof.
  intros H H' recs Hrecs. rewrite recordsOf_app in Hrecs.
  destruct (recordsOf encodeValue_replace columns rows) as [|r] eqn:Hr;
    [discriminate|].
  destruct (recordsOf encodeValue_replace columns rows') as [|r'] eqn:Hr';
    [discriminate|].
  injection Hrecs as <-.
  destruct (H r Hr) as (c & Hc & Hne & Hs).
  destruct (H' r' Hr') as (c' & Hc' & Hne' & Hs').
  exists (c ++ c'). split; [|split].
  - by rewrite concat_app, Hc, Hc'.
  - by apply Forall_app.
  - by rewrite statements_app, Hs, Hs', map_app.
Qed.

Lemma goodFor_ext enc tableName columns s s1 :
  goodFor enc tableName columns s ->
  fault s1 = fault s -> GetColumns s1 = GetColumns s ->
  batch s1 = batch s -> rowChan s1 = rowChan s ->
  goodFor enc tableName columns s1.
Proof.
  intros (Hc & Hnf & HB & Hr) Hf Hg Hb Hch. unfold goodFor, no_faults.
  by rewrite Hf, Hg, Hb, Hch.
Qed.

Lemma goodFor_advance enc tableName columns s new n :
  goodFor enc tableName columns s ->
  goodFor enc tableName columns (advance new n s).
Proof.
  intros (Hc & Hnf & HB & recs & Hr).
  split; [exact Hc|]. split; [exact Hnf|]. split; [exact HB|].
  exists (drop n recs). by apply recordsOf_take_drop.
Qed.

Lemma stream_batch_ok tableName columns s :
  goodFor encodeValue_stream tableName columns s ->
  let n := Z.to_nat (batch s) in
  let k := Z.of_nat (length (take n (rowChan s))) in
  exists new,
    trunkInsertWith insertIntoTable tableName (batch s) s =
      (Ret (k, None), advance new n s) /\
    transactions new = 1%nat /\
    insertedLog new = [k] /\
    loadedAre columns (take n (rowChan s)) new /\
    goodFor encodeValue_stream tableName columns (advance new n s).
Proof.
  intros Hg n k. pose proof Hg as (Hc & Hnf & HB & recs & Hr).
  destruct (recordsOf_take_drop _ _ _ _ n Hr) as [Ht _].
  pose proof (recordsOf_length _ _ _ _ Ht) as Hlen.
  exists (streamBatch tableName columns (take n recs)).
  split; [|split; [|split; [|split]]].
  - subst k. rewrite <- Hlen.
    by apply (trunkInsert_stream_ok s tableName columns (take n recs)).
  - reflexivity.
  - subst k. by rewrite <- Hlen.
  - intros recs' Hrecs'. rewrite Ht in Hrecs'. injection Hrecs' as <-.
    simpl. by rewrite app_nil_r.
  - by apply goodFor_advance.
Qed.

Lemma replace_batch_ok tableName columns s :
  goodFor encodeValue_replace tableName columns s ->
  let n := Z.to_nat (batch s) in
  let k := Z.of_nat (length (take n (rowChan s))) in
  exists new,
    trunkInsertWith insertIntoTableReplace tableName (batch s) s =
      (Ret (k, None), advance new n s) /\
    transactions new = 1%nat /\
    insertedLog new = [k] /\
    replacedAre tableName columns (take n (rowChan s)) new /\
    goodFor encodeValue_replace tableName columns (advance new n s).
Proof.
  intros Hg n k. pose proof Hg as (Hc & Hnf & HB & recs & Hr).
  destruct (recordsOf_take_drop _ _ _ _ n Hr) as [Ht _].
  pose proof (recordsOf_length _ _ _ _ Ht) as Hlen.
  exists (replaceBatch tableName (take n recs)).
  split; [|split; [|split; [|split]]].
  - subst k. rewrite <- Hlen.
    by apply (trunkInsert_replace_ok s tableName columns (take n recs)).
  - by destruct (take n recs).
  - subst k. rewrite <- Hlen. by destruct (take n recs).
  - intros recs' Hrecs'. rewrite Ht in Hrecs'. injection Hrecs' as <-.
    destruct (take n recs) as [|r rs].
    + by exists [].
    + exists [r :: rs]. split; [simpl; by rewrite app_nil_r|].
      split; [by repeat constructor|]. reflexivity.
  - by apply goodFor_advance.
Qed.

(** ** The batches of a table write *)

Lemma toggleOnly_shows_nothing pre :
  toggleOnly pre ->
  transactions pre = 0%nat /\ insertedLog pre = [] /\
  loaded pre = [] /\ statements pre = [].
Proof.
  unfold toggleOnly. induction pre as [|ev pre IH]; [done|].
  destruct ev; simpl; try discriminate; exact IH.
Qed.

Lemma ceilDiv_spec a b : 0 < b -> (ceilDiv a b - 1) * b < a <= ceilDiv a b * b.
Proof.
  intros Hb. unfold ceilDiv.
  pose proof (Z.div_mod (- a) b ltac:(lia)) as Hdm.
  pose proof (Z.mod_pos_bound (- a) b Hb) as Hm.
  nia.
Qed.

Lemma claimedInvocations_floor R B :
  0 <= R -> 1 <= B -> claimedInvocations R B (R / B + 1).
Proof.
  intros HR HB. split; [|done]. intros Hmod.
  pose proof (ceilDiv_spec R B ltac:(lia)) as Hc.
  pose proof (Z.div_mod R B ltac:(lia)) as Hdm.
  pose proof (Z.mod_pos_bound R B ltac:(lia)) as Hm.
  nia.
Qed.

(** C1, amended: for a batch size [B >= 1] and a channel of [R] rows whose
    values are all of handled types, when no call fails, [DumpTable] returns
    after having opened exactly [R / B + 1] transactions, one per batch
    invocation: the ceiling of [R / B] when [R] is no multiple of [B], one
    more than [R / B] when it is.  Every batch but the last wrote [B] rows
    and the last wrote [R mod B < B] rows (none when [R] is a multiple of
    [B]), after which the loop halted. *)
Theorem DumpTable_invocations s tableName columns recs fuel :
  GetColumns s tableName = inr columns ->
  no_faults s ->
  1 <= batch s <= int64_max ->
  recordsOf encodeValue_stream columns (rowChan s) = inr recs ->
  let R := Z.of_nat (length (rowChan s)) in
  let B := batch s in
  (Z.to_nat (R / B) + 1 < fuel)%nat ->
  exists s' added,
    DumpTable fuel tableName s = (Ret None, s') /\
    trace s' = trace s ++ added /\
    claimedInvocations R B (Z.of_nat (transactions added)) /\
    Z.of_nat (transactions added) = R / B + 1 /\
    insertedLog added = replicate (Z.to_nat (R / B)) B ++ [R mod B] /\
    0 <= R mod B < B.
Proof.
  intros Hc Hnf HB Hrecs R B Hfuel.
  assert (Hg : goodFor encodeValue_stream tableName columns s)
    by (split; [exact Hc|]; split; [exact Hnf|]; split; [exact HB|];
        by exists recs).
  destruct (DumpTableWith_spec insertIntoTable tableName
              (goodFor encodeValue_stream tableName columns)
              (loadedAre columns) (loadedAre_app columns)
              (fun s H => proj1 (proj1 (proj2 (proj2 H))))
              (fun s H => proj1 (proj2 H))
              (goodFor_ext encodeValue_stream tableName columns)
              (stream_batch_ok tableName columns) fuel s Hg Hfuel)
    as (s' & pre & new & Hrun & Htr & _ & Hpre & Ht & Hl & _).
  destruct (toggleOnly_shows_nothing pre Hpre) as (Ht0 & Hl0 & _ & _).
  fold R B in Ht, Hl.
  assert (H0 : 0 <= R / B) by (apply Z.div_pos; lia).
  assert (HT : Z.of_nat (transactions (pre ++ new)) = R / B + 1)
    by (rewrite transactions_app, Ht0, Ht; lia).
  exists s', (pre ++ new). split; [exact Hrun|]. split; [exact Htr|].
  split; [rewrite HT; apply claimedInvocations_floor; lia|].
  split; [exact HT|].
  split; [by rewrite insertedLog_app, Hl0, Hl|].
  apply Z.mod_pos_bound. lia.
Qed.

Lemma DumpTable_invocations_witness :
  let s := NewDumper never false sampleReader 2 sampleRows in
  exists s' added,
    DumpTable 3 "users" s = (Ret None, s') /\
    trace s' = trace s ++ added /\
    claimedInvocations 3 2 (Z.of_nat (transactions added)) /\
    Z.of_nat (transactions added) = 2 /\
    insertedLog added = [2; 1] /\
    0 <= 1 < 2.
Proof.
  intros s.
  assert (Hnf : no_faults s) by (intros k; reflexivity).
  assert (HB : 1 <= batch s <= int64_max) by (split; discriminate).
  assert (Hfuel : (Z.to_nat (Z.of_nat (length (rowChan s)) / batch s) + 1 < 3)%nat)
    by (vm_compute; lia).
  exact (DumpTable_invocations s "users" ["id"; "name"]
           [["1"; "O'Brien, J"]; ["2"; "NULL"]; ["3"; "NULL"]] 3
           eq_refl Hnf HB eq_refl Hfuel).
Defined.

(** C1 as stated fails for a batch size below one: with the batch size
    [-2] and three rows, one transaction is opened, one row is written and
    the loop halts, two rows being left in the channel, where the
    specification counts the ceiling of [3 / -2]. *)
Lemma DumpTable_invocations_counterexample :
  let s := NewDumper never true sampleReader (-2) sampleRows in
  exists s',
    DumpTable 2 "users" s = (Ret None, s') /\
    transactions (trace s') = 1%nat /\
    insertedLog (trace s') = [1] /\
    length (rowChan s') = 2%nat /\
    ~ claimedInvocations 3 (-2) (Z.of_nat (transactions (trace s'))).
Proof.
  intros s. eexists. split; [vm_compute; reflexivity|].
  split; [reflexivity|]. split; [reflexivity|]. split; [reflexivity|].
  intros [H _]. vm_compute in H. specialize (H ltac:(discriminate)).
  discriminate.
Qed.

(** With the batch size zero and an empty channel every batch writes zero
    rows, which is the batch size: the loop never halts. *)
Lemma dumpLoop_zero_batch_runs fuel tableName s :
  no_faults s -> (exists columns, GetColumns s tableName = inr columns) ->
  rowChan s = [] ->
  fst (dumpLoop insertIntoTable fuel tableName 0 0 s) = Running.
Proof.
  revert s. induction fuel as [|fuel IH]; intros s Hnf [columns Hc] Hch;
    [reflexivity|].
  cbn [dumpLoop]. change (0 =? 0) with true. cbn iota.
  unfold trunkInsertWith, insertIntoTable.
  run_M ltac:(first [rewrite Hnf | rewrite Hc | rewrite Hch
                    | progress cbn [producer]]).
  apply IH; [exact Hnf | by exists columns | reflexivity].
Qed.

(** C2, amended: for a batch size [B >= 1] and a channel of [R] rows whose
    values are all of handled types, when no call fails, the table write
    returns, the channel is drained and the row counts of the batches sum
    to [R], under the streaming strategy and under the buffered one.  Under
    the streaming strategy the records loaded are the records of the rows,
    each once and in order; under the buffered strategy the statements are
    the [replace] statements of consecutive runs of those records. *)
Theorem rows_written_once s tableName columns recs fuel :
  GetColumns s tableName = inr columns ->
  no_faults s ->
  1 <= batch s <= int64_max ->
  recordsOf encodeValue_stream columns (rowChan s) = inr recs ->
  let R := Z.of_nat (length (rowChan s)) in
  (Z.to_nat (R / batch s) + 1 < fuel)%nat ->
  (exists s' added,
      DumpTable fuel tableName s = (Ret None, s') /\
      trace s' = trace s ++ added /\
      rowChan s' = [] /\
      sumZ (insertedLog added) = R /\
      loaded added = recs) /\
  (exists s' added chunks,
      DumpTableWith insertIntoTableReplace fuel tableName s = (Ret None, s') /\
      trace s' = trace s ++ added /\
      rowChan s' = [] /\
      sumZ (insertedLog added) = R /\
      concat chunks = recs /\
      statements added = map (replaceQuery tableName) chunks).
Proof.
  intros Hc Hnf HB Hrecs R Hfuel.
  assert (Hsum : sumZ (replicate (Z.to_nat (R / batch s)) (batch s)
                       ++ [R mod batch s]) = R).
  { rewrite sumZ_app, sumZ_replicate. cbn [sumZ].
    pose proof (Z.div_mod R (batch s) ltac:(lia)) as Hdm.
    assert (0 <= R / batch s) by (apply Z.div_pos; lia). lia. }
  split.
  - assert (Hg : goodFor encodeValue_stream tableName columns s)
      by (split; [exact Hc|]; split; [exact Hnf|]; split; [exact HB|];
          by exists recs).
    destruct (DumpTableWith_spec insertIntoTable tableName
                (goodFor encodeValue_stream tableName columns)
                (loadedAre columns) (loadedAre_app columns)
                (fun s H => proj1 (proj1 (proj2 (proj2 H))))
                (fun s H => proj1 (proj2 H))
                (goodFor_ext encodeValue_stream tableName columns)
                (stream_batch_ok tableName columns) fuel s Hg Hfuel)
      as (s' & pre & new & Hrun & Htr & Hch & Hpre & _ & Hl & HQ).
    destruct (toggleOnly_shows_nothing pre Hpre) as (_ & Hl0 & Hld0 & _).
    exists s', (pre ++ new). split; [exact Hrun|]. split; [exact Htr|].
    split; [exact Hch|].
    split; [by rewrite insertedLog_app, Hl0, Hl|].
    by rewrite loaded_app, Hld0, (HQ recs Hrecs).
  - rewrite recordsOf_agree in Hrecs.
    assert (Hg : goodFor encodeValue_replace tableName columns s)
      by (split; [exact Hc|]; split; [exact Hnf|]; split; [exact HB|];
          by exists recs).
    destruct (DumpTableWith_spec insertIntoTableReplace tableName
                (goodFor encodeValue_replace tableName columns)
                (replacedAre tableName columns)
                (replacedAre_app tableName columns)
                (fun s H => proj1 (proj1 (proj2 (proj2 H))))
                (fun s H => proj1 (proj2 H))
                (goodFor_ext encodeValue_replace tableName columns)
                (replace_batch_ok tableName columns) fuel s Hg Hfuel)
      as (s' & pre & new & Hrun & Htr & Hch & Hpre & _ & Hl & HQ).
    destruct (toggleOnly_shows_nothing pre Hpre) as (_ & Hl0 & _ & Hst0).
    destruct (HQ recs Hrecs) as (chunks & Hcc & _ & Hst).
    exists s', (pre ++ new), chunks. split; [exact Hrun|]. split; [exact Htr|].
    split; [exact Hch|].
    split; [by rewrite insertedLog_app, Hl0, Hl|].
    split; [exact Hcc|]. by rewrite statements_app, Hst0, Hst.
Qed.

Lemma rows_written_once_witness :
  let s := NewDumper never false sampleReader 2 sampleRows in
  let recs := [["1"; "O'Brien, J"]; ["2"; "NULL"]; ["3"; "NULL"]] in
  (exists s' added,
      DumpTable 3 "users" s = (Ret None, s') /\
      trace s' = trace s ++ added /\
      rowChan s' = [] /\
      sumZ (insertedLog added) = 3 /\
      loaded added = recs) /\
  (exists s' added chunks,
      DumpTableWith insertIntoTableReplace 3 "users" s = (Ret None, s') /\
      trace s' = trace s ++ added /\
      rowChan s' = [] /\
      sumZ (insertedLog added) = 3 /\
      concat chunks = recs /\
      statements added = map (replaceQuery "users") chunks).
Proof.
  intros s recs.
  assert (Hnf : no_faults s) by (intros k; reflexivity).
  assert (HB : 1 <= batch s <= int64_max) by (split; discriminate).
  assert (Hfuel : (Z.to_nat (Z.of_nat (length (rowChan s)) / batch s) + 1 < 3)%nat)
    by (vm_compute; lia).
  exact (rows_written_once s "users" ["id"; "name"] recs 3
           eq_refl Hnf HB eq_refl Hfuel).
Defined.

(** C2 as stated fails where a row holds a value of an unhandled type: no
    call fails and the batch size is two, yet both strategies panic on the
    type assertion and no row of the one-row channel is counted. *)
Lemma rows_written_once_counterexample :
  let v := VOther "int64" in
  let s := NewDumper never true sampleReader 2 [ {[ "id" := v ]} ] in
  no_faults s /\ 1 <= batch s /\ length (rowChan s) = 1%nat /\
  exists s' s'',
    DumpTable 3 "users" s = (Panicked (TypeAssertion v), s') /\
    sumZ (insertedLog (trace s')) = 0 /\
    DumpTableWith insertIntoTableReplace 3 "users" s =
      (Panicked (TypeAssertion v), s'') /\
    sumZ (insertedLog (trace s'')) = 0.
Proof.
  intros v s. split; [by intros k|]. split; [done|]. split; [reflexivity|].
  eexists _, _. split; [vm_compute; reflexivity|]. split; [reflexivity|].
  split; [vm_compute; reflexivity|]. reflexivity.
Qed.

(** C8, amended: a batch invocation of either strategy returns a count
    between zero and the number of rows in the channel that is at most the
    batch size when the batch size is at least one, and at most one when
    the batch size is zero or negative (the bound is tested after a row has
    been taken). *)
Theorem batch_count_bounded s tableName B n e s' :
  is_int64 B ->
  insertIntoTable tableName B s = (Ret (n, e), s') \/
  insertIntoTableReplace tableName B s = (Ret (n, e), s') ->
  0 <= n <= Z.of_nat (length (rowChan s)) /\
  n <= Z.max B 1 /\
  (1 <= B -> n <= B).
Proof.
  intros HB Hrun.
  assert (Hn : 0 <= n <= Z.of_nat (length (take (toTake B 0) (rowChan s)))).
  { destruct Hrun as [Hrun|Hrun].
    - by apply (insertIntoTable_count s tableName B n e s').
    - by apply (insertIntoTableReplace_count s tableName B n e s'). }
  rewrite length_take in Hn. unfold toTake in Hn. lia.
Qed.

Lemma batch_count_bounded_witness :
  let s := NewDumper never true sampleReader 2 sampleRows in
  0 <= 2 <= Z.of_nat (length (rowChan s)) /\ 2 <= Z.max 2 1 /\ (1 <= 2 -> 2 <= 2).
Proof.
  intros s.
  assert (HB : is_int64 2) by (split; discriminate).
  exact (batch_count_bounded s "users" 2 2 None
           (snd (insertIntoTable "users" 2 s)) HB (or_introl eq_refl)).
Defined.

(** C8 as stated fails at the batch size zero: each strategy takes one row
    from a channel that holds one and returns the count one. *)
Lemma batch_count_bounded_counterexample :
  let s := NewDumper never true sampleReader 0 sampleRows in
  is_int64 0 /\
  (exists s', insertIntoTable "users" 0 s = (Ret (1, None), s')) /\
  (exists s', insertIntoTableReplace "users" 0 s = (Ret (1, None), s')) /\
  ~ 1 <= 0.
Proof.
  intros s. split; [split; discriminate|].
  split; [eexists; vm_compute; reflexivity|].
  split; [eexists; vm_compute; reflexivity|]. lia.
Qed.

(** ** Failures of a batch *)

(** C3 (what the code does): when the batch invocation of the loop returns
    an error, whichever it is, [DumpTable] does not return it: it panics
    with it ([log.Panic]). *)
Theorem batch_error_panics s s0 s1 tableName fuel n e :
  Once_Do ensureLocalInfile s = (Ret None, s0) ->
  trunkInsert tableName (batch s0) s0 = (Ret (n, Some e), s1) ->
  DumpTable (S fuel) tableName s = (Panicked (LogPanic e), s1).
Proof.
  intros Honce Hrun.
  unfold DumpTable, DumpTableWith, get. unfold mbind, M_bind, mret, M_ret.
  rewrite Honce. cbn beta iota. cbn [dumpLoop]. rewrite Z.eqb_refl.
  unfold mbind, M_bind. fold trunkInsert. rewrite Hrun. reflexivity.
Qed.

Lemma batch_error_panics_witness :
  let s := NewDumper (failAt 1 (DbErr "bad connection")) true sampleReader 2
                     sampleRows in
  exists s1,
    DumpTable 1 "users" s =
    (Panicked (LogPanic (Errorf "failed to open transaction: "
                                (DbErr "bad connection"))), s1) /\
    trace s1 = [EvQueryRow sql_read_local_infile (inr true);
                EvBegin (Some (DbErr "bad connection"))] /\
    rowChan s1 = sampleRows.
Proof.
  intros s. eexists. split.
  - exact (batch_error_panics s _ _ "users" 0 0 _ eq_refl eq_refl).
  - split; reflexivity.
Defined.

(** [DumpTable] returns an error only when the toggle failed; no error of a
    batch is ever returned. *)
Lemma dumpLoop_returns_no_error insert fuel tableName B inserted s e s' :
  dumpLoop insert fuel tableName B inserted s <> (Ret (Some e), s').
Proof.
  revert inserted s. induction fuel as [|fuel IH]; intros inserted s;
    [discriminate|].
  cbn [dumpLoop]. destruct (inserted =? B); [|discriminate].
  unfold mbind, M_bind.
  destruct (trunkInsertWith insert tableName B s) as [[[n [err|]]|p|] s1];
    try discriminate.
  apply IH.
Qed.

(** ** The toggle over a session *)

Lemma toggles_app tr tr' : toggles (tr ++ tr') = toggles tr ++ toggles tr'.
Proof. apply List.filter_app. Qed.

Lemma observers_toggles tr :
  reads tr = reads (toggles tr) /\
  (forall q, execs q tr = execs q (toggles tr)) /\
  enabledBySession tr = enabledBySession (toggles tr) /\
  foundEnabled tr = foundEnabled (toggles tr).
Proof.
  induction tr as [|ev tr (IH1 & IH2 & IH3 & IH4)]; [done|].
  destruct ev; simpl; try done.
  - split; [by rewrite IH1|]. split; [exact IH2|]. split; [exact IH3|].
    destruct res as [|[]]; done.
  - split; [exact IH1|]. split.
    + intros q. rewrite IH2. reflexivity.
    + split; [|exact IH4]. destruct res; [exact IH3|]. by rewrite IH3.
Qed.

Lemma frame_refl s : frame s s.
Proof. done. Qed.

Lemma frame_trans s s' s'' : frame s s' -> frame s' s'' -> frame s s''.
Proof. intros (? & ? & ?) (? & ? & ?). repeat split; congruence. Qed.

Lemma frame_inv s s' : frame s s' -> toggleInv s -> toggleInv s'.
Proof. intros (Ht & Ho & Hd). unfold toggleInv. by rewrite Ht, Ho, Hd. Qed.

Ltac solve_frame :=
  split; [cbn [trace with_trace with_rowChan];
          rewrite ?toggles_app; cbn [toggles List.filter isToggle];
          by rewrite ?app_nil_r
         | by split].

Lemma trunkInsert_frame tableName B s :
  frame s (snd (trunkInsert tableName B s)).
Proof.
  unfold trunkInsert, trunkInsertWith, insertIntoTable. unfold_M. compute_M.
  destruct (fault s _); compute_M; [solve_frame|].
  destruct (GetColumns s tableName) as [err|columns]; compute_M.
  { destruct (fault s _); compute_M; solve_frame. }
  destruct (fault s _); compute_M.
  { destruct (fault s _); compute_M; solve_frame. }
  destruct (producer columns B 0 [] (rowChan s)) as [[p|[k w]] ch]; compute_M;
    [solve_frame|].
  destruct (fault s _); compute_M.
  { destruct (fault s _); compute_M; solve_frame. }
  destruct (fault s _); compute_M; solve_frame.
Qed.

Lemma dumpLoop_frame fuel tableName B inserted s :
  frame s (snd (dumpLoop insertIntoTable fuel tableName B inserted s)).
Proof.
  revert inserted s. induction fuel as [|fuel IH]; intros inserted s;
    [apply frame_refl|].
  cbn [dumpLoop]. destruct (inserted =? B); [|apply frame_refl].
  unfold mbind, M_bind. fold trunkInsert.
  pose proof (trunkInsert_frame tableName B s) as Hf.
  destruct (trunkInsert tableName B s) as [[[n [err|]]|p|] s1];
    cbn [snd] in Hf |- *; try exact Hf.
  eapply frame_trans; [exact Hf|apply IH].
Qed.

Lemma Once_Do_toggleInv s :
  toggleInv s -> toggleInv (snd (Once_Do ensureLocalInfile s)).
Proof.
  unfold toggleInv. intros Hinv.
  unfold Once_Do, ensureLocalInfile. unfold_M. compute_M.
  destruct (setGlobalInline s) eqn:Honce; compute_M.
  { by rewrite Honce. }
  inversion Hinv as [Hn Ht Hd| | | |]. clear Hinv Hn.
  destruct (fault s _) as [e|]; compute_M.
  { rewrite toggles_app, <- Ht, <- Hd. apply ReadFailed. }
  destruct (local_infile s); compute_M.
  { rewrite toggles_app, <- Ht, <- Hd. apply FoundOn. }
  destruct (fault s _) as [e|]; compute_M.
  - rewrite !toggles_app, <- Ht, <- Hd. apply EnableFailed.
  - change (String.eqb sql_enable_local_infile sql_enable_local_infile)
      with true.
    compute_M. rewrite !toggles_app, <- Ht. apply Enabled.
Qed.

Lemma DumpTable_toggleInv fuel tableName s :
  toggleInv s -> toggleInv (snd (DumpTable fuel tableName s)).
Proof.
  intros Hinv. apply Once_Do_toggleInv in Hinv.
  unfold DumpTable, DumpTableWith, get. unfold mbind, M_bind, mret, M_ret.
  destruct (Once_Do ensureLocalInfile s) as [[[err|]|p|] s0];
    cbn [snd] in Hinv |- *; try exact Hinv.
  eapply frame_inv; [apply dumpLoop_frame|exact Hinv].
Qed.

Lemma runCalls_toggleInv calls s : toggleInv s -> toggleInv (runCalls calls s).
Proof.
  revert s. induction calls as [|[[fuel tableName] rows] calls IH];
    intros s Hinv; [exact Hinv|].
  cbn [runCalls].
  pose proof (DumpTable_toggleInv fuel tableName (with_rowChan rows s) Hinv)
    as Hinv'.
  destruct (DumpTable fuel tableName (with_rowChan rows s)) as [[r|[e|v]|] s'];
    cbn [snd] in Hinv'; try exact Hinv'; by apply IH.
Qed.

(** What [Close] does on the connection. *)
Lemma Close_trace s :
  let k := length (trace s) in
  trace (snd (Close s)) =
  trace s ++
  (if disableGlobalInline s
   then [EvExec sql_disable_local_infile (fault s k); EvClose (fault s (S k))]
   else [EvClose (fault s k)]).
Proof.
  unfold Close. unfold_M. compute_M.
  destruct (disableGlobalInline s); compute_M.
  - destruct (fault s (length (trace s))) as [eg|]; compute_M.
    + rewrite length_app, Nat.add_1_r.
      destruct (fault s (S (length (trace s)))); compute_M;
        by rewrite <- app_assoc.
    + change (String.eqb sql_disable_local_infile sql_enable_local_infile)
        with false.
      change (String.eqb sql_disable_local_infile sql_disable_local_infile)
        with true.
      compute_M. rewrite length_app, Nat.add_1_r.
      destruct (fault s (S (length (trace s)))); compute_M;
        by rewrite <- app_assoc.
  - by destruct (fault s (length (trace s))).
Qed.

(** C4: over any sequence of [DumpTable] calls on a new dumper, whatever
    fails, the server variable is read at most once and enabled at most
    once; when the read found it enabled the session has not touched it and
    keeps no duty to disable it; and [Close] issues
    [SET GLOBAL local_infile=0], once, exactly when the session has enabled
    the variable. *)
Theorem local_infile_toggled_once
    (flt : nat -> option error) (infile : bool)
    (rdr : string -> error + list string) (B : Z)
    (calls : list (nat * string * list Row)) :
  let s := runCalls calls (NewDumper flt infile rdr B []) in
  (reads (trace s) <= 1)%nat /\
  (execs sql_enable_local_infile (trace s) <= 1)%nat /\
  execs sql_disable_local_infile (trace s) = 0%nat /\
  (foundEnabled (trace s) = true ->
   disableGlobalInline s = false /\
   execs sql_enable_local_infile (trace s) = 0%nat) /\
  disableGlobalInline s = enabledBySession (trace s) /\
  exists closing,
    trace (snd (Close s)) = trace s ++ closing /\
    execs sql_disable_local_infile closing =
      (if enabledBySession (trace s) then 1 else 0)%nat /\
    execs sql_enable_local_infile closing = 0%nat /\
    reads closing = 0%nat.
Proof.
  intros s.
  assert (Hinv : toggleInv s) by (apply runCalls_toggleInv; apply NotYet).
  destruct (observers_toggles (trace s)) as (Hr & He & Hen & Hf).
  pose proof (Close_trace s) as Hclose. cbn zeta in Hclose.
  rewrite Hr, !He, Hen, Hf. unfold toggleInv in Hinv.
  assert (Hgoal : forall closing,
             closing = (if disableGlobalInline s
                        then [EvExec sql_disable_local_infile
                                (fault s (length (trace s)));
                              EvClose (fault s (S (length (trace s))))]
                        else [EvClose (fault s (length (trace s)))]) ->
             execs sql_disable_local_infile closing =
               (if disableGlobalInline s then 1 else 0)%nat /\
             execs sql_enable_local_infile closing = 0%nat /\
             reads closing = 0%nat)
    by (intros closing ->; by destruct (disableGlobalInline s)).
  destruct Hinv; cbn; repeat split; try lia; try done;
    (eexists; split; [exact Hclose|]; by apply (Hgoal _ eq_refl)).
Qed.

(** ** The errors of [Close] *)

(** C9, amended: [Close] returns no error when neither the restore of
    [local_infile] nor the close of the connection fails; when one of the
    two fails, an error with a message of its own that wraps that failure;
    when both fail, one error whose message names both the close and the
    [SET GLOBAL local_infile=0] and that wraps the error of the restore
    only.  The restore is attempted only when the session has enabled the
    variable. *)
Theorem Close_errors s :
  let k := length (trace s) in
  let errGlobalInline := if disableGlobalInline s then fault s k else None in
  let err := fault s (if disableGlobalInline s then S k else k) in
  trace (snd (Close s)) =
    trace s ++
    (if disableGlobalInline s
     then [EvExec sql_disable_local_infile errGlobalInline; EvClose err]
     else [EvClose err]) /\
  exists r,
    fst (Close s) = Ret r /\
    match err, errGlobalInline with
    | Some c, Some g =>
        exists e, r = Some e /\
          Error e =
            "failed to close mysql connection and `SET GLOBAL local_infile=0`: "
            +:+ Error g /\
          Unwrap e = Some g
    | Some c, None =>
        exists e, r = Some e /\
          Error e = "failed to close mysql connection: " +:+ Error c /\
          Unwrap e = Some c
    | None, Some g =>
        exists e, r = Some e /\
          Error e =
            "failed `SET GLOBAL local_infile=0` please do this manually! : "
            +:+ Error g /\
          Unwrap e = Some g
    | None, None => r = None
    end.
Proof.
  intros k errGlobalInline err. split.
  { pose proof (Close_trace s) as H. cbn zeta in H. rewrite H.
    subst errGlobalInline err k. by destruct (disableGlobalInline s). }
  subst errGlobalInline err k. unfold Close. unfold_M. compute_M.
  destruct (disableGlobalInline s); compute_M.
  - destruct (fault s (length (trace s))) as [g|]; compute_M.
    + rewrite length_app, Nat.add_1_r.
      destruct (fault s (S (length (trace s)))) as [c|]; compute_M;
        eexists; (split; [reflexivity|]); by eexists.
    + change (String.eqb sql_disable_local_infile sql_enable_local_infile)
        with false.
      change (String.eqb sql_disable_local_infile sql_disable_local_infile)
        with true.
      compute_M. rewrite length_app, Nat.add_1_r.
      destruct (fault s (S (length (trace s)))) as [c|]; compute_M;
        eexists; (split; [reflexivity|]); [by eexists|reflexivity].
  - destruct (fault s (length (trace s))) as [c|]; compute_M;
      eexists; (split; [reflexivity|]); [by eexists|reflexivity].
Qed.

(** C9 as stated fails where both the restore and the close fail: the
    error returned carries the error of the restore; the error of the close
    is in neither its chain nor its message. *)
Lemma Close_errors_counterexample :
  let g := DbErr "access denied" in
  let c := DbErr "broken pipe" in
  let s := runCalls [(3%nat, "users", sampleRows)]
             (NewDumper (failAt2 16 g 17 c) false sampleReader 2 []) in
  disableGlobalInline s = true /\
  exists e s',
    Close s = (Ret (Some e), s') /\
    trace s' = trace s ++ [EvExec sql_disable_local_infile (Some g);
                           EvClose (Some c)] /\
    Error e =
      "failed to close mysql connection and `SET GLOBAL local_infile=0`: access denied" /\
    inChain g e /\
    ~ inChain c e.
Proof.
  intros g c s. split; [reflexivity|].
  eexists _, _. split; [vm_compute; reflexivity|].
  split; [reflexivity|]. split; [reflexivity|]. split.
  - right. by left.
  - intros [H|[H|[]]]; discriminate.
Qed.

(** In that case the error returned does not depend on the error of the
    close. *)
Lemma Close_both_fail_ignores_close_error s g c :
  disableGlobalInline s = true ->
  fault s (length (trace s)) = Some g ->
  fault s (S (length (trace s))) = Some c ->
  fst (Close s) =
  Ret (Some (Errorf
    "failed to close mysql connection and `SET GLOBAL local_infile=0`: " g)).
Proof.
  intros Hd Hg Hc. unfold Close. unfold_M. compute_M.
  rewrite Hd. compute_M. rewrite Hg. compute_M.
  rewrite length_app, Nat.add_1_r, Hc. reflexivity.
Qed.

(** * Further properties of the code *)

(** ** The record of a row *)

(** X1: the record built for a row has one field per column, in the order
    of the columns, and its field for a column is the encoding of the row's
    entry for that column (lines 229-242 and 297-310). *)
Theorem makeRowValues_by_column enc (row : Row) (columns vals : list string) :
  makeRowValues enc row columns = inr vals ->
  length vals = length columns /\
  forall (i : nat) (col : string),
    columns !! i = Some col ->
    exists v, vals !! i = Some v /\ enc (index row col) = inr v.
Proof.
  rewrite makeRowValues_fields. apply fieldsOf_lookup.
Qed.

Lemma makeRowValues_by_column_witness :
  length ["1"; "O'Brien, J"] = length ["id"; "name"] /\
  forall (i : nat) (col : string),
    ["id"; "name"] !! i = Some col ->
    exists v, ["1"; "O'Brien, J"] !! i = Some v /\
              encodeValue_stream
                (index ({[ "id" := VString "1";
                           "name" := VString "O'Brien, J" ]} : Row) col)
              = inr v.
Proof.
  exact (makeRowValues_by_column encodeValue_stream
           {[ "id" := VString "1"; "name" := VString "O'Brien, J" ]}
           ["id"; "name"] ["1"; "O'Brien, J"] eq_refl).
Defined.

Lemma fieldsOf_handled (row : Row) (columns : list string) :
  forallb (fun col => handled (index row col)) columns = true ->
  exists vals, fieldsOf encodeValue_stream row columns = inr vals.
Proof.
  induction columns as [|c columns IH]; intros H; [by exists []|].
  cbn [forallb] in H. apply andb_prop in H as [Hc Hcs].
  destruct (IH Hcs) as [vals Hvals]. cbn [fieldsOf]. rewrite Hvals.
  destruct (index row c); try discriminate; by eexists.
Qed.

Lemma fieldsOf_panic (row : Row) (columns : list string) p :
  fieldsOf encodeValue_stream row columns = inl p ->
  exists before col after dyntype,
    columns = before ++ col :: after /\
    forallb (fun c => handled (index row c)) before = true /\
    index row col = VOther dyntype /\
    p = TypeAssertion (VOther dyntype).
Proof.
  induction columns as [|c columns IH]; intros H; [discriminate|].
  cbn [fieldsOf] in H.
  destruct (index row c) as [|s|b|d] eqn:Hc; cbn in H.
  4: { injection H as <-. exists [], c, columns, d. by repeat split. }
  all: destruct (fieldsOf encodeValue_stream row columns) as [q|l];
    [|discriminate]; injection H as ->;
    destruct (IH eq_refl) as (before & col & after & d & -> & Hb & Hcol & ->);
    exists (c :: before), col, after, d;
    (split; [reflexivity|]); (split; [cbn [forallb]; by rewrite Hc|]);
    by split.
Qed.

(** X2: a row is encoded exactly when each of its entries for the columns
    is nil, a string or a byte slice; otherwise both strategies panic, on
    the type assertion of the first column, in column order, whose entry is
    of another type. *)
Theorem makeRowValues_panics_on_first_unhandled
    (row : Row) (columns : list string) :
  makeRowValues encodeValue_replace row columns =
    makeRowValues encodeValue_stream row columns /\
  ((exists vals, makeRowValues encodeValue_stream row columns = inr vals) <->
   forallb (fun col => handled (index row col)) columns = true) /\
  forall p,
    makeRowValues encodeValue_stream row columns = inl p ->
    exists before col after dyntype,
      columns = before ++ col :: after /\
      forallb (fun c => handled (index row c)) before = true /\
      index row col = VOther dyntype /\
      p = TypeAssertion (VOther dyntype).
Proof.
  split; [symmetry; apply makeRowValues_agree|].
  rewrite makeRowValues_fields. split; [split|].
  - intros [vals Hvals].
    destruct (forallb (fun col => handled (index row col)) columns) eqn:Hall;
      [reflexivity|].
    exfalso. revert vals Hvals.
    induction columns as [|c columns IH]; intros vals Hvals; [discriminate|].
    cbn [forallb] in Hall. cbn [fieldsOf] in Hvals.
    destruct (index row c) as [|s|b|d]; cbn in Hall, Hvals; try discriminate;
      destruct (fieldsOf encodeValue_stream row columns) as [q|l];
      try discriminate; by apply (IH Hall l).
  - apply fieldsOf_handled.
  - apply fieldsOf_panic.
Qed.

Lemma index_insert_other (row : Row) (k c : string) (v : Value) :
  k <> c -> index (<[k := v]> row) c = index row c.
Proof. intros Hne. unfold index. by rewrite lookup_insert_ne. Qed.

Lemma fieldsOf_ext_in enc (row row' : Row) columns :
  (forall col, In col columns -> index row col = index row' col) ->
  fieldsOf enc row columns = fieldsOf enc row' columns.
Proof.
  induction columns as [|c columns IH]; intros H; [reflexivity|].
  cbn [fieldsOf]. rewrite (H c (or_introl eq_refl)).
  rewrite IH; [reflexivity|]. intros col Hin. apply H. by right.
Qed.

(** X3: only the row's entries for the table's columns are read: an entry
    under any other key, whatever its value or type, changes neither the
    record nor whether the encoding panics. *)
Theorem makeRowValues_ignores_other_keys enc (row : Row)
    (columns : list string) (key : string) (v : Value) :
  ~ In key columns ->
  makeRowValues enc (<[key := v]> row) columns = makeRowValues enc row columns /\
  makeRowValues enc (delete key row) columns = makeRowValues enc row columns.
Proof.
  intros Hnot. rewrite !makeRowValues_fields. split.
  - apply fieldsOf_ext_in. intros col Hin. apply index_insert_other.
    by intros ->.
  - apply fieldsOf_ext_in. intros col Hin. unfold index.
    rewrite lookup_delete_ne; [reflexivity|]. by intros ->.
Qed.

Lemma makeRowValues_ignores_other_keys_witness :
  makeRowValues encodeValue_stream
    (<[ "password" := VOther "int64" ]> {[ "id" := VString "1" ]}) ["id"] =
  makeRowValues encodeValue_stream ({[ "id" := VString "1" ]} : Row) ["id"].
Proof.
  apply (makeRowValues_ignores_other_keys encodeValue_stream
           {[ "id" := VString "1" ]} ["id"] "password" (VOther "int64")).
  intros [H|[]]. discriminate.
Defined.

(** ** Quoted identifiers *)

Lemma length_append (a b : string) :
  String.length (a +:+ b) = (String.length a + String.length b)%nat.
Proof.
  induction a as [|c a IH]; [reflexivity|].
  rewrite append_cons. cbn [String.length]. by rewrite IH.
Qed.

Lemma ReplaceByte_length (s : string) :
  String.length (ReplaceByte s backtick "``") =
  (String.length s + countByte backtick s)%nat.
Proof.
  induction s as [|c s IH]; [reflexivity|].
  cbn [ReplaceByte countByte]. destruct (Ascii.eqb c backtick).
  - rewrite length_append. cbn [String.length]. rewrite IH. lia.
  - cbn [String.length]. rewrite IH. lia.
Qed.

Lemma ReplaceByte_absent (s : string) :
  countByte backtick s = 0%nat -> ReplaceByte s backtick "``" = s.
Proof.
  induction s as [|c s IH]; [reflexivity|].
  cbn [ReplaceByte countByte]. destruct (Ascii.eqb c backtick);
    [discriminate|]. intros H. by rewrite IH.
Qed.

Lemma ReplaceByte_app (a b : string) :
  ReplaceByte (a +:+ b) backtick "``" =
  ReplaceByte a backtick "``" +:+ ReplaceByte b backtick "``".
Proof.
  induction a as [|c a IH]; [reflexivity|].
  rewrite append_cons. cbn [ReplaceByte]. rewrite IH.
  destruct (Ascii.eqb c backtick); [by rewrite append_assoc | reflexivity].
Qed.

(** X4: a quoted identifier is two bytes longer than the name plus one
    byte for every backtick of the name; a name without a backtick is put
    between backticks unchanged; and the doubling of backticks goes through
    concatenation, so quoting a dotted name gives the same body as quoting
    its parts. *)
Theorem quoteIdentifier_shape :
  (forall name,
      String.length (quoteIdentifier name) =
      (String.length name + countByte backtick name + 2)%nat) /\
  (forall name,
      countByte backtick name = 0%nat ->
      quoteIdentifier name = "`" +:+ name +:+ "`") /\
  (forall a b,
      quoteIdentifier (a +:+ b) =
      "`" +:+ ReplaceByte a backtick "``" +:+ ReplaceByte b backtick "``"
      +:+ "`").
Proof.
  split; [|split].
  - intros name. unfold quoteIdentifier.
    rewrite !length_append, ReplaceByte_length. cbn [String.length]. lia.
  - intros name H. unfold quoteIdentifier. by rewrite ReplaceByte_absent.
  - intros a b. unfold quoteIdentifier.
    by rewrite ReplaceByte_app, append_assoc.
Qed.

(** ** Edge cases of a batch *)

Lemma with_rowChan_same s : with_rowChan (rowChan s) s = s.
Proof. by destruct s. Qed.

(** X5: when the reader cannot give the columns of the table, both
    strategies return the count zero and the reader's error behind
    "failed to get columns: ", execute no statement and take no row; the
    transaction that [trunkInsert] had begun is rolled back, and the error
    comes back behind "failed to insert rows: ". *)
Theorem columns_failure s tableName B err :
  GetColumns s tableName = inl err ->
  fault s (length (trace s)) = None ->
  let e := Errorf "failed to get columns: " err in
  insertIntoTable tableName B s = (Ret (0, Some e), s) /\
  insertIntoTableReplace tableName B s = (Ret (0, Some e), s) /\
  trunkInsert tableName B s =
    (Ret (0, Some (Errorf "failed to insert rows: " e)),
     with_trace (trace s ++ [EvBegin None;
                             EvRollback (fault s (S (length (trace s))))]) s).
Proof.
  intros Hc Hbegin e. split; [|split].
  - unfold insertIntoTable.
    run_M ltac:(first [rewrite Hc]). reflexivity.
  - unfold insertIntoTableReplace.
    run_M ltac:(first [rewrite Hc]). reflexivity.
  - unfold trunkInsert, trunkInsertWith, insertIntoTable.
    run_M ltac:(first [rewrite Hc | rewrite Hbegin]).
    rewrite length_app, Nat.add_1_r. unfold with_trace. compute_M.
    by rewrite <- app_assoc.
Qed.

Lemma columns_failure_witness :
  let s := NewDumper never true (fun _ => inl (DbErr "no such table")) 2
                     sampleRows in
  insertIntoTable "users" 2 s =
  (Ret (0, Some (Errorf "failed to get columns: " (DbErr "no such table"))), s).
Proof.
  intros s.
  apply (columns_failure s "users" 2 (DbErr "no such table") eq_refl eq_refl).
Defined.

(** X6: on a channel that is closed and empty the buffered strategy returns
    the count zero without executing any statement, the preamble included,
    and leaves the session as it is; the streaming strategy still registers
    its reader handler and executes the preamble and the [LOAD DATA]
    statement, on an input of no record. *)
Theorem empty_channel_batch s tableName columns B :
  GetColumns s tableName = inr columns ->
  rowChan s = [] ->
  no_faults s ->
  insertIntoTableReplace tableName B s = (Ret (0, None), s) /\
  insertIntoTable tableName B s =
    (Ret (0, None),
     with_trace (trace s ++ [EvRegisterReader tableName;
                             EvTxExec sql_no_fk_checks [] None;
                             EvTxExec (loadDataQuery tableName columns) [] None;
                             EvDeregisterReader tableName]) s).
Proof.
  intros Hc Hch Hnf. split.
  - unfold insertIntoTableReplace.
    run_M ltac:(first [rewrite Hc | rewrite Hch
                      | progress cbn [replaceLoop]
                      | change (0 =? 0) with true]).
    by rewrite <- Hch, with_rowChan_same.
  - unfold insertIntoTable.
    run_M ltac:(first [rewrite Hc | rewrite Hch | rewrite Hnf
                      | progress cbn [producer]]).
    rewrite <- Hch. unfold with_trace, with_rowChan. compute_M.
    by rewrite <- ?app_assoc.
Qed.

Lemma empty_channel_batch_witness :
  let s := NewDumper never true sampleReader 2 [] in
  insertIntoTableReplace "users" 2 s = (Ret (0, None), s).
Proof.
  intros s.
  assert (Hnf : no_faults s) by (intros k; reflexivity).
  apply (empty_channel_batch s "users" ["id"; "name"] 2 eq_refl eq_refl Hnf).
Defined.

Lemma trunkInsert_stream_any s tableName columns recs B :
  GetColumns s tableName = inr columns ->
  no_faults s ->
  is_int64 B ->
  let n := Z.to_nat (Z.max B 1) in
  recordsOf encodeValue_stream columns (take n (rowChan s)) = inr recs ->
  trunkInsert tableName B s =
  (Ret (Z.of_nat (length recs), None),
   advance (streamBatch tableName columns recs) n s).
Proof.
  intros Hcols Hnf HB n Hrecs.
  pose proof (producer_spec columns B HB (rowChan s) 0 []
                ltac:(lia) (or_intror eq_refl)) as Hp.
  cbn zeta in Hp.
  replace (toTake B 0) with n in Hp by (unfold toTake; lia).
  rewrite Hrecs in Hp. rewrite <- (recordsOf_length _ _ _ _ Hrecs) in Hp.
  unfold trunkInsert, trunkInsertWith, insertIntoTable.
  run_M ltac:(first [rewrite Hnf | rewrite Hcols | rewrite Hp]).
  unfold advance, streamBatch, with_trace, with_rowChan. simpl.
  rewrite <- !app_assoc. simpl. reflexivity.
Qed.

Lemma trunkInsert_replace_any s tableName columns recs B :
  GetColumns s tableName = inr columns ->
  no_faults s ->
  is_int64 B ->
  let n := Z.to_nat (Z.max B 1) in
  recordsOf encodeValue_replace columns (take n (rowChan s)) = inr recs ->
  trunkInsertWith insertIntoTableReplace tableName B s =
  (Ret (Z.of_nat (length recs), None),
   advance (replaceBatch tableName recs) n s).
Proof.
  intros Hcols Hnf HB n Hrecs.
  pose proof (replaceLoop_spec columns B HB (rowChan s) 0
                ("replace into " +:+ tableName +:+ " values ")
                ltac:(lia) (or_intror eq_refl)) as Hp.
  cbn zeta in Hp.
  replace (toTake B 0) with n in Hp by (unfold toTake; lia).
  rewrite Hrecs in Hp. rewrite <- (recordsOf_length _ _ _ _ Hrecs) in Hp.
  rewrite Z.add_0_l in Hp.
  unfold trunkInsertWith, insertIntoTableReplace.
  destruct recs as [|r recs].
  - change (Z.of_nat (length [])) with 0 in Hp.
    run_M ltac:(first [rewrite Hnf | rewrite Hcols | rewrite Hp
                      | change (0 =? 0) with true]).
    unfold advance, replaceBatch, with_trace, with_rowChan. simpl.
    rewrite <- ?app_assoc. reflexivity.
  - assert (Hnz : (Z.of_nat (S (length recs)) =? 0) = false)
      by (apply Z.eqb_neq; lia).
    rewrite replaceQuery_buf in Hp.
    run_M ltac:(first [rewrite Hnf | rewrite Hcols | rewrite Hp | rewrite Hnz]).
    unfold advance, replaceBatch, with_trace, with_rowChan. compute_M.
    rewrite <- ?app_assoc. reflexivity.
Qed.

(** X7: whatever the batch size, a batch that meets no failure takes from
    the channel its first [max batch 1] rows, or all of them when there are
    fewer, returns their number, and leaves the following rows in the
    channel in their order; the streaming strategy loads the records of the
    rows taken in one [LOAD DATA] statement, the buffered strategy writes
    them in one [replace] statement (and executes none when it took no
    row). *)
Theorem batch_takes_prefix s tableName columns recs B :
  GetColumns s tableName = inr columns ->
  no_faults s ->
  is_int64 B ->
  let n := Z.to_nat (Z.max B 1) in
  recordsOf encodeValue_stream columns (take n (rowChan s)) = inr recs ->
  length recs = Nat.min n (length (rowChan s)) /\
  (exists s',
      trunkInsert tableName B s = (Ret (Z.of_nat (length recs), None), s') /\
      rowChan s' = drop n (rowChan s) /\
      trace s' = trace s ++ streamBatch tableName columns recs) /\
  (exists s',
      trunkInsertWith insertIntoTableReplace tableName B s =
        (Ret (Z.of_nat (length recs), None), s') /\
      rowChan s' = drop n (rowChan s) /\
      trace s' = trace s ++ replaceBatch tableName recs).
Proof.
  intros Hc Hnf HB n Hrecs. split; [|split].
  - rewrite (recordsOf_length _ _ _ _ Hrecs). apply length_take.
  - eexists. split; [by apply (trunkInsert_stream_any s tableName columns)|].
    by split.
  - rewrite recordsOf_agree in Hrecs.
    eexists. split; [by apply (trunkInsert_replace_any s tableName columns)|].
    by split.
Qed.

Lemma batch_takes_prefix_witness :
  let s := NewDumper never true sampleReader 0 sampleRows in
  exists s',
    trunkInsert "users" 0 s = (Ret (1, None), s') /\
    rowChan s' = drop 1 sampleRows /\
    trace s' = trace s ++ streamBatch "users" ["id"; "name"]
                                      [["1"; "O'Brien, J"]].
Proof.
  intros s.
  assert (Hnf : no_faults s) by (intros k; reflexivity).
  assert (HB : is_int64 0) by (split; discriminate).
  exact (proj1 (proj2 (batch_takes_prefix s "users" ["id"; "name"]
                         [["1"; "O'Brien, J"]] 0 eq_refl Hnf HB eq_refl))).
Defined.

(** X8: the rows a batch of the buffered strategy has taken are not put
    back when the batch fails: if the preamble fails, the count returned is
    zero, the [replace] statement is not executed, and the rows of the batch
    are gone from the channel. *)
Theorem replace_failure_loses_rows s tableName columns recs B e :
  GetColumns s tableName = inr columns ->
  is_int64 B ->
  rowChan s <> [] ->
  let n := Z.to_nat (Z.max B 1) in
  recordsOf encodeValue_replace columns (take n (rowChan s)) = inr recs ->
  fault s (length (trace s)) = Some e ->
  insertIntoTableReplace tableName B s =
  (Ret (0, Some (Errorf "failed to disable foreign key checks: " e)),
   advance [EvTxExec sql_no_fk_checks [] (Some e)] n s) /\
  (0 < length (take n (rowChan s)))%nat.
Proof.
  intros Hcols HB Hne n Hrecs Hpre.
  pose proof (replaceLoop_spec columns B HB (rowChan s) 0
                ("replace into " +:+ tableName +:+ " values ")
                ltac:(lia) (or_intror eq_refl)) as Hp.
  cbn zeta in Hp.
  replace (toTake B 0) with n in Hp by (unfold toTake; lia).
  rewrite Hrecs in Hp.
  assert (Hpos : (0 < length (take n (rowChan s)))%nat).
  { rewrite length_take. destruct (rowChan s); [done|]. simpl. lia. }
  split; [|exact Hpos].
  assert (Hnz : (0 + Z.of_nat (length (take n (rowChan s))) =? 0) = false)
    by (apply Z.eqb_neq; lia).
  unfold insertIntoTableReplace.
  run_M ltac:(first [rewrite Hpre | rewrite Hcols | rewrite Hp | rewrite Hnz]).
  reflexivity.
Qed.

Lemma replace_failure_loses_rows_witness :
  let e := DbErr "lock wait timeout" in
  let s := NewDumper (failAt 0 e) true sampleReader 2 sampleRows in
  insertIntoTableReplace "users" 2 s =
  (Ret (0, Some (Errorf "failed to disable foreign key checks: " e)),
   advance [EvTxExec sql_no_fk_checks [] (Some e)] 2 s).
Proof.
  intros e s.
  assert (Hne : rowChan s <> []) by discriminate.
  assert (HB : is_int64 2) by (split; discriminate).
  exact (proj1 (replace_failure_loses_rows s "users" ["id"; "name"]
                  [["1"; "O'Brien, J"]; ["2"; "NULL"]] 2 e
                  eq_refl HB Hne eq_refl eq_refl)).
Defined.

(** ** The transaction of a batch *)

(** X9: whatever the strategy, when [trunkInsert] returns without an error
    its last call is a commit that succeeded; when it returns an error the
    count it returns is zero and the error is the failure behind one of
    three prefixes, which tell what was the last call: a begin that failed,
    a rollback after an insertion that failed (no commit is attempted), or a
    commit that failed (no rollback follows). *)
Theorem trunkInsert_error_shape
    (insert : string -> Z -> M (Z * option error)) s tableName B n r s' :
  trunkInsertWith insert tableName B s = (Ret (n, r), s') ->
  match r with
  | None => last (trace s') = Some (EvCommit None)
  | Some e =>
      n = 0 /\
      exists cause,
        Unwrap e = Some cause /\
        ((e = Errorf "failed to open transaction: " cause /\
          last (trace s') = Some (EvBegin (Some cause))) \/
         (e = Errorf "failed to insert rows: " cause /\
          exists res, last (trace s') = Some (EvRollback res)) \/
         (e = Errorf "failed to commit transaction: " cause /\
          last (trace s') = Some (EvCommit (Some cause))))
  end.
Proof.
  unfold trunkInsertWith. unfold_M. compute_M.
  destruct (fault s (length (trace s))) as [e0|]; compute_M.
  { intros [= <- <- <-]. split; [reflexivity|]. exists e0.
    split; [reflexivity|]. left. split; [reflexivity|].
    cbn. apply last_snoc. }
  destruct (insert tableName B _) as [[[k [err|]]|p|] s1]; compute_M;
    try discriminate.
  - intros [= <- <- <-]. split; [reflexivity|]. exists err.
    split; [reflexivity|]. right; left. split; [reflexivity|].
    eexists. cbn. apply last_snoc.
  - destruct (fault s1 _) as [e1|] eqn:Hf; compute_M.
    + intros [= <- <- <-]. split; [reflexivity|]. exists e1.
      split; [reflexivity|]. right; right. split; [reflexivity|].
      cbn. apply last_snoc.
    + intros [= <- <- <-]. cbn. apply last_snoc.
Qed.

Lemma trunkInsert_error_shape_witness :
  let s := NewDumper (failAt 0 (DbErr "bad connection")) true sampleReader 2
                     sampleRows in
  exists cause,
    Unwrap (Errorf "failed to open transaction: " (DbErr "bad connection"))
      = Some cause /\
    last (trace (snd (trunkInsert "users" 2 s))) = Some (EvBegin (Some cause)).
Proof.
  intros s.
  destruct (trunkInsert_error_shape insertIntoTable s "users" 2 0
              (Some (Errorf "failed to open transaction: "
                            (DbErr "bad connection")))
              (snd (trunkInsert "users" 2 s)) eq_refl)
    as (_ & cause & Hu & _).
  exists cause. split; [exact Hu|]. injection Hu as <-. reflexivity.
Defined.

Lemma txRun_app open tr tr' :
  txRun open (tr ++ tr') =
  match txRun open tr with
  | Some open' => txRun open' tr'
  | None => None
  end.
Proof.
  revert open. induction tr as [|ev tr IH]; intros open; [reflexivity|].
  cbn [app txRun]. destruct (txStep open ev); [apply IH|reflexivity].
Qed.

Lemma registered_app tr tr' acc :
  registered (tr ++ tr') acc = registered tr' (registered tr acc).
Proof.
  revert acc. induction tr as [|[] tr IH]; intros acc; cbn; try done.
Qed.

Lemma producer_panic columns B inserted written ch p rest :
  producer columns B inserted written ch = (inl p, rest) ->
  exists v, p = TypeAssertion v.
Proof.
  revert inserted written.
  induction ch as [|row more IH]; intros inserted written; [discriminate|].
  cbn [producer].
  destruct (makeRowValues encodeValue_stream row columns) as [q|r] eqn:Hr.
  - intros [= <- _]. rewrite makeRowValues_fields in Hr.
    destruct (fieldsOf_panic _ _ _ Hr) as (_ & _ & _ & d & _ & _ & _ & ->).
    by eexists.
  - destruct (_ >=? B); [discriminate|]. apply IH.
Qed.

Ltac solve_tx Htx Hreg :=
  split; [cbn [trace with_trace with_rowChan fst snd cutShort];
          rewrite ?txRun_app, Htx; reflexivity
         |cbn [trace with_trace with_rowChan fst snd cutShort];
          rewrite ?registered_app, Hreg; cbn;
          rewrite ?String.eqb_refl; reflexivity].

Lemma trunkInsert_tx s tableName B :
  txRun false (trace s) = Some false ->
  registered (trace s) [] = [] ->
  (txRun false (trace (snd (trunkInsert tableName B s))) =
     Some (cutShort (fst (trunkInsert tableName B s))) /\
   registered (trace (snd (trunkInsert tableName B s))) [] =
     (if cutShort (fst (trunkInsert tableName B s))
      then [tableName] else [])) /\
  (forall e, fst (trunkInsert tableName B s) <> Panicked (LogPanic e)).
Proof.
  intros Htx Hreg.
  unfold trunkInsert, trunkInsertWith, insertIntoTable. unfold_M. compute_M.
  destruct (fault s _); compute_M; [split; [solve_tx Htx Hreg|done]|].
  destruct (GetColumns s tableName) as [err|columns]; compute_M.
  { destruct (fault s _); compute_M; (split; [solve_tx Htx Hreg|done]). }
  destruct (fault s _); compute_M.
  { destruct (fault s _); compute_M; (split; [solve_tx Htx Hreg|done]). }
  destruct (producer columns B 0 [] (rowChan s)) as [[p|[k w]] ch] eqn:Hprod;
    compute_M.
  { destruct (producer_panic _ _ _ _ _ _ _ Hprod) as [v ->].
    split; [solve_tx Htx Hreg|done]. }
  destruct (fault s _); compute_M.
  { destruct (fault s _); compute_M; (split; [solve_tx Htx Hreg|done]). }
  destruct (fault s _); compute_M; (split; [solve_tx Htx Hreg|done]).
Qed.

(** X10: [trunkInsert] uses its transaction in order and cleans up: it
    begins one transaction, executes its statements inside it, and ends it
    with one commit or one rollback before it returns, whatever fails; and
    the reader handler it registered is deregistered when it returns.  Only
    the panic of a type assertion in the producer leaves the transaction
    open and the handler registered. *)
Theorem trunkInsert_cleans_up s tableName B :
  txRun false (trace s) = Some false ->
  registered (trace s) [] = [] ->
  let o := fst (trunkInsert tableName B s) in
  let s' := snd (trunkInsert tableName B s) in
  txRun false (trace s') = Some (cutShort o) /\
  registered (trace s') [] = (if cutShort o then [tableName] else []) /\
  (forall e, o <> Panicked (LogPanic e)).
Proof.
  intros Htx Hreg o s'.
  destruct (trunkInsert_tx s tableName B Htx Hreg) as [[? ?] ?].
  by repeat split.
Qed.

Lemma trunkInsert_cleans_up_witness :
  let s := NewDumper (failAt 2 (DbErr "lock wait timeout")) true
                     sampleReader 2 sampleRows in
  txRun false (trace (snd (trunkInsert "users" 2 s))) = Some false /\
  registered (trace (snd (trunkInsert "users" 2 s))) [] = [] /\
  (forall e, fst (trunkInsert "users" 2 s) <> Panicked (LogPanic e)).
Proof.
  intros s. exact (trunkInsert_cleans_up s "users" 2 eq_refl eq_refl).
Defined.





(** ** The toggle and the table write *)

(** X12: when the read of [local_infile] or the statement that enables it
    fails, [DumpTable] returns the driver's error as it is, begins no
    transaction and takes no row from the channel; the server variable and
    the duty to restore it are left as they were, and the one-time guard is
    spent all the same. *)
Theorem toggle_failure_stops_write s fuel tableName e s' :
  DumpTable fuel tableName s = (Ret (Some e), s') ->
  setGlobalInline s = false /\
  (trace s' = trace s ++ [EvQueryRow sql_read_local_infile (inl e)] \/
   trace s' = trace s ++ [EvQueryRow sql_read_local_infile (inr false);
                          EvExec sql_enable_local_infile (Some e)]) /\
  rowChan s' = rowChan s /\
  local_infile s' = local_infile s /\
  disableGlobalInline s' = disableGlobalInline s /\
  setGlobalInline s' = true.
Proof.
  unfold DumpTable, DumpTableWith, get. unfold mbind at 1, M_bind at 1.
  destruct (Once_Do ensureLocalInfile s) as [[[err|]|p|] s0] eqn:Honce;
    try discriminate.
  2: { unfold mbind, M_bind, mret, M_ret. cbn beta iota. intros H.
       by destruct (dumpLoop_returns_no_error _ _ _ _ _ _ _ _ H). }
  unfold mret, M_ret. intros [= <- <-]. revert Honce.
  unfold Once_Do, ensureLocalInfile. unfold_M. compute_M.
  destruct (setGlobalInline s); compute_M; [discriminate|].
  destruct (fault s (length (trace s))) as [e0|]; compute_M.
  { intros [= <- <-]. repeat split; try done. by left. }
  destruct (local_infile s) eqn:Hli; compute_M; [discriminate|].
  destruct (fault s _) as [e1|]; compute_M.
  - intros [= <- <-]. repeat split; try done. right. cbn.
    by rewrite <- app_assoc.
  - change (String.eqb sql_enable_local_infile sql_enable_local_infile)
      with true.
    compute_M. discriminate.
Qed.

Lemma toggle_failure_stops_write_witness :
  let e := DbErr "access denied" in
  let s := NewDumper (failAt 1 e) false sampleReader 2 sampleRows in
  let s' := snd (DumpTable 5 "users" s) in
  setGlobalInline s = false /\
  (trace s' = trace s ++ [EvQueryRow sql_read_local_infile (inl e)] \/
   trace s' = trace s ++ [EvQueryRow sql_read_local_infile (inr false);
                          EvExec sql_enable_local_infile (Some e)]) /\
  rowChan s' = rowChan s /\
  local_infile s' = local_infile s /\
  disableGlobalInline s' = disableGlobalInline s /\
  setGlobalInline s' = true.
Proof.
  intros e s s'.
  exact (toggle_failure_stops_write s 5 "users" e s' eq_refl).
Defined.

Lemma trunkInsert_local_infile tableName B s :
  local_infile (snd (trunkInsert tableName B s)) = local_infile s.
Proof.
  unfold trunkInsert, trunkInsertWith, insertIntoTable. unfold_M.
  repeat (compute_M;
          match goal with
          | |- context [match fault s ?k with _ => _ end] =>
              destruct (fault s k)
          | |- context [match GetColumns s ?t with _ => _ end] =>
              destruct (GetColumns s t)
          | |- context [producer ?c ?b ?i ?w ?ch] =>
              destruct (producer c b i w ch) as [[?|[? ?]] ?]
          end);
    compute_M; reflexivity.
Qed.

Lemma dumpLoop_local_infile fuel tableName B inserted s :
  local_infile (snd (dumpLoop insertIntoTable fuel tableName B inserted s)) =
  local_infile s.
Proof.
  revert inserted s. induction fuel as [|fuel IH]; intros inserted s;
    [reflexivity|].
  cbn [dumpLoop]. destruct (inserted =? B); [|reflexivity].
  unfold mbind, M_bind. fold trunkInsert.
  pose proof (trunkInsert_local_infile tableName B s) as Hli.
  destruct (trunkInsert tableName B s) as [[[n [err|]]|p|] s1];
    cbn [snd] in Hli |- *; try exact Hli.
  rewrite <- Hli. apply IH.
Qed.

(** X13: the toggle is not tried again: once a [DumpTable] call has
    evaluated it, even if that call failed on it and [local_infile] is still
    off, every later [DumpTable] call goes straight to its batches, making
    no call of the toggle. *)
Theorem toggle_not_retried s fuel tableName :
  setGlobalInline s = true ->
  DumpTable fuel tableName s =
    dumpLoop insertIntoTable fuel tableName (batch s) (batch s) s /\
  toggles (trace (snd (DumpTable fuel tableName s))) = toggles (trace s) /\
  local_infile (snd (DumpTable fuel tableName s)) = local_infile s.
Proof.
  intros Hset.
  assert (Heq : DumpTable fuel tableName s =
                dumpLoop insertIntoTable fuel tableName (batch s) (batch s) s).
  { unfold DumpTable, DumpTableWith, Once_Do, get.
    unfold mbind, M_bind, mret, M_ret. rewrite Hset. cbn beta iota.
    by destruct (dumpLoop insertIntoTable fuel tableName (batch s) (batch s) s)
      as [[| |] ?]. }
  split; [exact Heq|]. rewrite Heq.
  split; [apply dumpLoop_frame | apply dumpLoop_local_infile].
Qed.

Lemma toggle_not_retried_witness :
  let s := snd (DumpTable 5 "users"
                  (NewDumper (failAt 0 (DbErr "access denied")) false
                             sampleReader 2 sampleRows)) in
  setGlobalInline s = true /\ local_infile s = false /\
  toggles (trace (snd (DumpTable 5 "orders" s))) = toggles (trace s) /\
  local_infile (snd (DumpTable 5 "orders" s)) = false /\
  transactions (trace (snd (DumpTable 5 "orders" s))) = 2%nat.
Proof.
  intros s. split; [reflexivity|]. split; [reflexivity|].
  destruct (toggle_not_retried s 5 "orders" eq_refl) as (_ & Ht & Hl).
  split; [exact Ht|]. split; [exact Hl|]. reflexivity.
Defined.

(** ** Batch sizes below one *)

(** X14: with a batch size of zero or less and a row in the channel, a
    table write that meets no failure writes the first row alone, in one
    transaction, and returns without an error: the count of that batch, one,
    differs from the batch size, so the loop halts and the rows that follow
    stay in the channel, unwritten. *)
Theorem nonpositive_batch_writes_one_row
    s tableName columns (row : Row) (rest : list Row) r fuel :
  GetColumns s tableName = inr columns ->
  no_faults s ->
  int64_min <= batch s <= 0 ->
  rowChan s = row :: rest ->
  makeRowValues encodeValue_stream row columns = inr r ->
  (2 <= fuel)%nat ->
  exists s' pre,
    DumpTable fuel tableName s = (Ret None, s') /\
    trace s' = trace s ++ pre ++ streamBatch tableName columns [r] /\
    toggleOnly pre /\
    rowChan s' = rest.
Proof.
  intros Hc Hnf HB Hch Hr Hfuel.
  destruct (Once_Do_no_faults s Hnf)
    as (pre & s1 & Hrun & Htr & Hpre & Hf & Hc1 & Hb & Hch1).
  assert (Hnf1 : no_faults s1) by (intros k; by rewrite Hf).
  assert (HB1 : is_int64 (batch s))
    by (unfold is_int64, int64_min, int64_max in *; lia).
  assert (Hn : Z.to_nat (Z.max (batch s) 1) = 1%nat) by (destruct HB; lia).
  pose proof (trunkInsert_stream_any s1 tableName columns [r] (batch s)) as Hb1.
  cbn zeta in Hb1. rewrite Hn, Hc1, Hch1, Hch in Hb1.
  cbn [take recordsOf] in Hb1. rewrite Hr in Hb1.
  specialize (Hb1 Hc Hnf1 HB1 eq_refl).
  destruct fuel as [|[|fuel]]; try lia.
  exists (advance (streamBatch tableName columns [r]) 1 s1), pre.
  unfold DumpTable, DumpTableWith, get. unfold mbind, M_bind, mret, M_ret.
  rewrite Hrun. cbn beta iota. rewrite Hb.
  cbn [dumpLoop]. rewrite Z.eqb_refl. unfold mbind, M_bind.
  fold trunkInsert. rewrite Hb1. cbn beta iota. cbn [length].
  replace (Z.of_nat 1 =? batch s) with false
    by (symmetry; apply Z.eqb_neq; destruct HB; lia).
  split; [reflexivity|]. split; [|split; [exact Hpre|]].
  - unfold advance. cbn. by rewrite Htr, <- app_assoc.
  - unfold advance. cbn. by rewrite Hch1, Hch.
Qed.

Lemma nonpositive_batch_writes_one_row_witness :
  let s := NewDumper never true sampleReader 0 sampleRows in
  exists s' pre,
    DumpTable 2 "users" s = (Ret None, s') /\
    trace s' = trace s ++ pre ++
               streamBatch "users" ["id"; "name"] [["1"; "O'Brien, J"]] /\
    toggleOnly pre /\
    rowChan s' = drop 1 sampleRows.
Proof.
  intros s.
  assert (Hnf : no_faults s) by (intros k; reflexivity).
  assert (HB : int64_min <= batch s <= 0) by (split; discriminate).
  exact (nonpositive_batch_writes_one_row s "users" ["id"; "name"] _ _
           ["1"; "O'Brien, J"] 2 eq_refl Hnf HB eq_refl eq_refl
           (le_n 2)).
Defined.

(** X15: on an empty channel a table write with the batch size zero never
    halts when no call fails: every batch writes zero rows, which is the
    batch size, so the loop goes on opening and committing empty
    transactions.  With a negative batch size it halts after one empty
    transaction. *)
Theorem empty_channel_small_batch s tableName columns :
  GetColumns s tableName = inr columns ->
  no_faults s ->
  rowChan s = [] ->
  (batch s = 0 ->
   forall fuel, fst (DumpTable fuel tableName s) = Running) /\
  (int64_min <= batch s < 0 ->
   forall fuel, (2 <= fuel)%nat ->
     exists s' pre,
       DumpTable fuel tableName s = (Ret None, s') /\
       trace s' = trace s ++ pre ++ streamBatch tableName columns [] /\
       toggleOnly pre).
Proof.
  intros Hc Hnf Hch.
  destruct (Once_Do_no_faults s Hnf)
    as (pre & s1 & Hrun & Htr & Hpre & Hf & Hc1 & Hb & Hch1).
  assert (Hnf1 : no_faults s1) by (intros k; by rewrite Hf).
  split.
  - intros HB fuel.
    unfold DumpTable, DumpTableWith, get. unfold mbind, M_bind, mret, M_ret.
    rewrite Hrun. cbn beta iota. rewrite Hb, HB.
    apply dumpLoop_zero_batch_runs; [exact Hnf1| |congruence].
    exists columns. congruence.
  - intros HB fuel Hfuel.
    assert (HB1 : is_int64 (batch s))
      by (unfold is_int64, int64_min, int64_max in *; lia).
    pose proof (trunkInsert_stream_any s1 tableName columns [] (batch s))
      as Hb1.
    cbn zeta in Hb1. rewrite Hc1, Hch1, Hch, take_nil in Hb1.
    specialize (Hb1 Hc Hnf1 HB1 eq_refl).
    destruct fuel as [|[|fuel]]; try lia.
    exists (advance (streamBatch tableName columns [])
                    (Z.to_nat (Z.max (batch s) 1)) s1), pre.
    unfold DumpTable, DumpTableWith, get. unfold mbind, M_bind, mret, M_ret.
    rewrite Hrun. cbn beta iota. rewrite Hb.
    cbn [dumpLoop]. rewrite Z.eqb_refl. unfold mbind, M_bind.
    fold trunkInsert. rewrite Hb1. cbn beta iota. cbn [length].
    replace (Z.of_nat 0 =? batch s) with false
      by (symmetry; apply Z.eqb_neq; destruct HB; lia).
    split; [reflexivity|]. split; [|exact Hpre].
    unfold advance. cbn. by rewrite Htr, <- app_assoc.
Qed.

Lemma empty_channel_small_batch_witness :
  let s := NewDumper never true sampleReader 0 [] in
  fst (DumpTable 7 "users" s) = Running.
Proof.
  intros s.
  assert (Hnf : no_faults s) by (intros k; reflexivity).
  exact (proj1 (empty_channel_small_batch s "users" ["id"; "name"]
                  eq_refl Hnf eq_refl) eq_refl 7%nat).
Defined.

(** ** The server variable over a session *)

Lemma Once_Do_serverInv init s :
  serverInv init s -> serverInv init (snd (Once_Do ensureLocalInfile s)).
Proof.
  unfold serverInv. intros [Hl Hd].
  unfold Once_Do, ensureLocalInfile. unfold_M. compute_M.
  destruct (setGlobalInline s); compute_M; [by split|].
  destruct (fault s _) as [e|]; compute_M; [by split|].
  destruct (local_infile s) eqn:Hli; compute_M;
    [split; [congruence|exact Hd]|].
  destruct (fault s _) as [e|]; compute_M;
    [split; [congruence|exact Hd]|].
  change (String.eqb sql_enable_local_infile sql_enable_local_infile) with true.
  compute_M. split; [by rewrite orb_true_r|]. intros _.
  destruct init; [discriminate|reflexivity].
Qed.

Lemma DumpTable_serverInv init fuel tableName s :
  serverInv init s -> serverInv init (snd (DumpTable fuel tableName s)).
Proof.
  intros Hinv. apply Once_Do_serverInv in Hinv.
  unfold DumpTable, DumpTableWith, get. unfold mbind, M_bind, mret, M_ret.
  destruct (Once_Do ensureLocalInfile s) as [[[err|]|p|] s0];
    cbn [snd] in Hinv |- *; try exact Hinv.
  unfold serverInv in *.
  rewrite dumpLoop_local_infile.
  destruct (dumpLoop_frame fuel tableName (batch s0) (batch s0) s0)
    as (_ & _ & Hd).
  by rewrite Hd.
Qed.

Lemma runCalls_serverInv init calls s :
  serverInv init s -> serverInv init (runCalls calls s).
Proof.
  revert s. induction calls as [|[[fuel tableName] rows] calls IH];
    intros s Hinv; [exact Hinv|].
  cbn [runCalls].
  pose proof (DumpTable_serverInv init fuel tableName (with_rowChan rows s) Hinv)
    as Hinv'.
  destruct (DumpTable fuel tableName (with_rowChan rows s)) as [[r|[e|v]|] s'];
    cbn [snd] in Hinv'; try exact Hinv'; by apply IH.
Qed.

Lemma Close_local_infile s :
  local_infile (snd (Close s)) =
  if disableGlobalInline s
  then match fault s (length (trace s)) with
       | None => false
       | Some _ => local_infile s
       end
  else local_infile s.
Proof.
  unfold Close. unfold_M. compute_M.
  destruct (disableGlobalInline s); compute_M.
  - destruct (fault s (length (trace s))) as [eg|]; compute_M.
    + by destruct (fault s _).
    + change (String.eqb sql_disable_local_infile sql_enable_local_infile)
        with false.
      change (String.eqb sql_disable_local_infile sql_disable_local_infile)
        with true.
      compute_M. by destruct (fault s _).
  - by destruct (fault s (length (trace s))).
Qed.

(** X16: on a server that no other session changes, closing the dumper
    after any sequence of [DumpTable] calls leaves [local_infile] as it was
    when the dumper was made, whatever else failed, provided the restoring
    statement, when one is due, does not fail; if it fails, the variable is
    left on where it had been off. *)
Theorem Close_restores_local_infile
    (flt : nat -> option error) (infile : bool)
    (rdr : string -> error + list string) (B : Z)
    (calls : list (nat * string * list Row)) :
  let s := runCalls calls (NewDumper flt infile rdr B []) in
  let restore := fault s (length (trace s)) in
  (disableGlobalInline s = false \/ restore = None ->
   local_infile (snd (Close s)) = infile) /\
  (disableGlobalInline s = true -> restore <> None ->
   infile = false /\ local_infile (snd (Close s)) = true).
Proof.
  intros s restore.
  assert (Hinv : serverInv infile s)
    by (apply runCalls_serverInv; split;
        [cbn; by rewrite orb_false_r | discriminate]).
  destruct Hinv as [Hl Hd]. rewrite Close_local_infile. subst restore.
  destruct (disableGlobalInline s).
  - specialize (Hd eq_refl). subst infile. split.
    + intros [H|H]; [discriminate|]. by rewrite H.
    + intros _ Hf. split; [reflexivity|].
      destruct (fault s (length (trace s))); [exact Hl|done].
  - rewrite orb_false_r in Hl. split; [done|discriminate].
Qed.

Lemma Close_restores_local_infile_witness :
  let s := runCalls [(3%nat, "users", sampleRows)]
             (NewDumper never false sampleReader 2 []) in
  local_infile s = true /\ local_infile (snd (Close s)) = false.
Proof.
  intros s. split; [reflexivity|].
  exact (proj1 (Close_restores_local_infile never false sampleReader 2
                  [(3%nat, "users", sampleRows)]) (or_intror eq_refl)).
Defined.

(** ** The driver *)

Section DriverProperties.

Variable Settings : Type.
Variable ParseDSN : string -> error + Config Settings.
Variable FormatDSN : Config Settings -> string.
Variable sql_Open : string -> error + DB.

(** X17: [IsSupported] and [NewConnection] judge a data source name by the
    same parser: for a name that [IsSupported] accepts, [NewConnection] can
    fail only on opening the connection, never on parsing; a non-empty name
    that [IsSupported] rejects makes [NewConnection] fail with the parser's
    error behind "failed to parse mysql dsn: ", before anything is opened;
    and the empty name is rejected without asking the parser. *)
Theorem IsSupported_NewConnection (opts : ConnOpts)
    (rdr : string -> error + list string) :
  (IsSupported Settings ParseDSN (DSN opts) = true ->
   (exists c, NewConnection Settings ParseDSN FormatDSN sql_Open opts rdr
              = inr c) \/
   (exists cause, NewConnection Settings ParseDSN FormatDSN sql_Open opts rdr
                  = inl (Errorf "failed to open mysql connection: " cause))) /\
  (IsSupported Settings ParseDSN (DSN opts) = false -> DSN opts <> "" ->
   exists cause,
     ParseDSN (DSN opts) = inl cause /\
     NewConnection Settings ParseDSN FormatDSN sql_Open opts rdr
     = inl (Errorf "failed to parse mysql dsn: " cause)) /\
  IsSupported Settings ParseDSN "" = false.
Proof.
  unfold IsSupported, NewConnection. split; [|split; [|reflexivity]].
  - destruct (String.eqb (DSN opts) ""); [discriminate|].
    destruct (ParseDSN (DSN opts)) as [err|cfg]; [discriminate|]. intros _.
    destruct (sql_Open _) as [err|conn]; [right|left]; by eexists.
  - destruct (String.eqb_spec (DSN opts) "") as [->|Hne]; [done|].
    destruct (ParseDSN (DSN opts)) as [err|cfg]; [|discriminate].
    intros _ _. by exists err.
Qed.

(** X18: a connection that [NewConnection] returns was opened with the
    parsed configuration in which multi-statements is on, whether the data
    source name asked for it or not, and all other settings are the parsed
    ones; its pool limits and the batch size of its dumper are those of the
    options; and its dumper is new: it has made no call, has not evaluated
    the toggle and has nothing to restore. *)
Theorem NewConnection_forces_multiStatements (opts : ConnOpts)
    (rdr : string -> error + list string) (c : Connection) :
  NewConnection Settings ParseDSN FormatDSN sql_Open opts rdr = inr c ->
  exists cfg conn,
    ParseDSN (DSN opts) = inr cfg /\
    dataSourceName c = FormatDSN (mkConfig true (settings cfg)) /\
    sql_Open (dataSourceName c) = inr conn /\
    (maxOpenConns c, maxIdleConns c, connMaxLifetime c) =
      (MaxConns opts, MaxIdleConns opts, MaxConnLifetime opts) /\
    dumper c = NewDumper (db_fault conn) (db_local_infile conn) rdr
                         (Batch opts) [] /\
    trace (dumper c) = [] /\
    setGlobalInline (dumper c) = false /\
    disableGlobalInline (dumper c) = false.
Proof.
  unfold NewConnection.
  destruct (ParseDSN (DSN opts)) as [err|cfg]; [discriminate|].
  assert (Hcfg : (if MultiStatements cfg then cfg
                  else mkConfig true (settings cfg)) =
                 mkConfig true (settings cfg))
    by (destruct cfg as [[] ?]; reflexivity).
  rewrite Hcfg.
  destruct (sql_Open _) as [err|conn] eqn:Hopen; [discriminate|].
  intros [= <-]. exists cfg, conn. by repeat split.
Qed.

End DriverProperties.

Lemma NewConnection_forces_multiStatements_witness :
  let parse := fun dsn : string =>
                 inr (mkConfig false dsn) : error + Config string in
  let format := fun cfg : Config string =>
                  if MultiStatements cfg
                  then settings cfg +:+ "?multiStatements=true"
                  else settings cfg in
  let open := fun _ : string => inr (mkDB never false) : error + DB in
  let opts := mkConnOpts "root@/klepto" 1000 5 2 0 in
  exists c,
    NewConnection string parse format open opts sampleReader = inr c /\
    dataSourceName c = "root@/klepto?multiStatements=true" /\
    batch (dumper c) = 1000.
Proof.
  intros parse format open opts.
  eexists. split; [reflexivity|].
  destruct (NewConnection_forces_multiStatements string parse format open
              opts sampleReader _ eq_refl) as (cfg & conn & Hp & Hd & _).
  split; [|reflexivity].
  injection Hp as <-. exact Hd.
Defined.

(** ** The preamble of a batch *)

Ltac split_added :=
  cbn [trace with_trace with_rowChan fst snd];
  rewrite <- ?app_assoc; cbn [app];
  eexists; split; [reflexivity|]; reflexivity.

Lemma replaceLoop_prefix columns B ch :
  forall inserted buf k buf' rest,
    replaceLoop columns B inserted buf ch = (inr (k, buf'), rest) ->
    exists suffix, buf' = buf +:+ suffix.
Proof.
  induction ch as [|row more IH]; intros inserted buf k buf' rest.
  - intros [= _ <- _]. exists "". by rewrite append_nil_r.
  - cbn [replaceLoop].
    destruct (makeRowValues encodeValue_replace row columns) as [p|r];
      [discriminate|].
    assert (Hbuf : exists mid,
               (if inserted =? 0 then buf else buf +:+ ",") +:+
               ("(" +:+ Join r "," +:+ ")") = buf +:+ mid).
    { destruct (inserted =? 0); eexists; [reflexivity|].
      by rewrite append_assoc. }
    destruct Hbuf as [mid ->].
    destruct (_ >=? B).
    + intros [= _ <- _]. by exists mid.
    + intros H. destruct (IH _ _ _ _ _ H) as [suffix ->].
      exists (mid +:+ suffix). by rewrite append_assoc.
Qed.

(** X19: in the transaction of a batch, whichever strategy is used and
    whatever fails, the statement that writes the rows ([LOAD DATA] or
    [replace]) is executed only right after a
    [SET foreign_key_checks = 0;] that succeeded in the same transaction;
    when that preamble fails the statement is not executed. *)
Theorem data_statement_after_preamble s tableName B :
  (exists added,
      trace (snd (trunkInsert tableName B s)) = trace s ++ added /\
      guardedRun false added = true) /\
  (exists added,
      trace (snd (trunkInsertWith insertIntoTableReplace tableName B s)) =
        trace s ++ added /\
      guardedRun false added = true).
Proof.
  split.
  - unfold trunkInsert, trunkInsertWith, insertIntoTable. unfold_M.
    repeat (compute_M;
            match goal with
            | |- context [match fault s ?k with _ => _ end] =>
                destruct (fault s k)
            | |- context [match GetColumns s ?t with _ => _ end] =>
                destruct (GetColumns s t)
            | |- context [producer ?c ?b ?i ?w ?ch] =>
                destruct (producer c b i w ch) as [[?|[? ?]] ?]
            end);
      compute_M; split_added.
  - unfold trunkInsertWith, insertIntoTableReplace. unfold_M.
    repeat (compute_M;
            match goal with
            | |- context [match fault s ?k with _ => _ end] =>
                destruct (fault s k)
            | |- context [match GetColumns s ?t with _ => _ end] =>
                destruct (GetColumns s t)
            | |- context [replaceLoop ?c ?b ?i ?w ?ch] =>
                let H := fresh "Hloop" in
                destruct (replaceLoop c b i w ch) as [[?|[? ?]] ?] eqn:H;
                [|destruct (replaceLoop_prefix _ _ _ _ _ _ _ _ H) as [? ->]]
            | |- context [if ?z =? 0 then _ else _] =>
                destruct (z =? 0)
            end);
      compute_M; split_added.
Qed.
